(** * chat-quant web client: a shallow embedding of the chat page logic

    The definitions below transcribe the TypeScript of the web client
    (ChatLog, ChatInput, the chat page and the useUserRequests hook) into
    executable Rocq functions.  React state cells become record fields that
    are passed explicitly; calls that leave the component (HTTP requests,
    timers, alerts, callbacks handed in as props) are collected in an effect
    trace; what the environment answers (HTTP outcomes, random ids, clock
    readings) is an explicit argument. *)

From Stdlib Require Import NArith ZArith Ascii String List Bool Lia.
From stdpp Require Import base option list gmap.
Import ListNotations.

Local Open Scope N_scope.

(** ** JavaScript strings

    A JavaScript string is a sequence of UTF-16 code units. *)

Module Js.

Abbreviation jsstring := (list N).

Definition lit (s : string) : jsstring :=
  List.map N_of_ascii (list_ascii_of_string s).

Fixpoint str_eqb (a b : jsstring) : bool :=
  match a, b with
  | [], [] => true
  | x :: a', y :: b' => N.eqb x y && str_eqb a' b'
  | _, _ => false
  end.

(** ToBoolean on a string: only the empty string is falsy. *)
Definition truthy (s : jsstring) : bool :=
  match s with [] => false | _ :: _ => true end.

(** ToBoolean on a possibly undefined/null string. *)
Definition truthy_opt (o : option jsstring) : bool :=
  match o with Some s => truthy s | None => false end.

(** [a || b] on strings. *)
Definition or_else (a b : jsstring) : jsstring :=
  if truthy a then a else b.

(** [a || b] where [a] may be undefined. *)
Definition opt_or_else (a : option jsstring) (b : jsstring) : jsstring :=
  match a with Some s => or_else s b | None => b end.

(** The code units that [\s] and [String.prototype.trim] treat as blank:
    WhiteSpace and LineTerminator of ECMA-262. *)
Definition is_ws (c : N) : bool :=
  (9 <=? c) && (c <=? 13)
  || (c =? 32) || (c =? 160) || (c =? 5760)
  || (8192 <=? c) && (c <=? 8202)
  || (c =? 8232) || (c =? 8233) || (c =? 8239) || (c =? 8287)
  || (c =? 12288) || (c =? 65279).

Fixpoint trimStart (s : jsstring) : jsstring :=
  match s with
  | [] => []
  | c :: r => if is_ws c then trimStart r else s
  end.

Definition trimEnd (s : jsstring) : jsstring := rev (trimStart (rev s)).

Definition trim (s : jsstring) : jsstring := trimEnd (trimStart s).

(** [strip_prefix p s] is [Some r] when [s = p ++ r]. *)
Fixpoint strip_prefix (p s : jsstring) : option jsstring :=
  match p, s with
  | [], _ => Some s
  | x :: p', y :: s' => if N.eqb x y then strip_prefix p' s' else None
  | _ :: _, [] => None
  end.

Definition startsWith (p s : jsstring) : bool :=
  match strip_prefix p s with Some _ => true | None => false end.

(** [s.includes(p)] *)
Fixpoint includes (p s : jsstring) : bool :=
  startsWith p s ||
  match s with
  | [] => false
  | _ :: r => includes p r
  end.

(** [s.split(sep)] for a one-unit separator. *)
Fixpoint split (sep : N) (s : jsstring) : list jsstring :=
  match s with
  | [] => [[]]
  | c :: r =>
      if N.eqb c sep then [] :: split sep r
      else match split sep r with
           | h :: t => (c :: h) :: t
           | [] => [[c]]
           end
  end.

(** [s.replace(re, '')] for a regular expression without the [g] flag that
    ends in [$]: the match is the leftmost position from which the rest of
    the input matches; [matches_here] decides that for one position; the
    match reaches the end of the input, so the result is what precedes
    it. *)
Fixpoint replace_to_end (matches_here : jsstring -> bool) (s : jsstring)
  : jsstring :=
  if matches_here s then []
  else match s with
       | [] => []
       | c :: r => c :: replace_to_end matches_here r
       end.

(** [l.join(sep)] for a one-unit separator. *)
Fixpoint join (sep : N) (l : list jsstring) : jsstring :=
  match l with
  | [] => []
  | x :: rest =>
      match rest with
      | [] => x
      | _ :: _ => x ++ sep :: join sep rest
      end
  end.

(** [s.endsWith(p)] *)
Definition endsWith (p s : jsstring) : bool := startsWith (rev p) (rev s).

(** [s.replace(/a/g, b)] for one-unit [a] and [b]. *)
Definition replace_all (a b : N) (s : jsstring) : jsstring :=
  List.map (fun c => if N.eqb c a then b else c) s.

(** First occurrence of [p] in [s]: what precedes it and what follows. *)
Fixpoint find_sub (p s : jsstring) : option (jsstring * jsstring) :=
  match strip_prefix p s with
  | Some r => Some ([], r)
  | None =>
      match s with
      | [] => None
      | c :: r =>
          match find_sub p r with
          | Some (a, b) => Some (c :: a, b)
          | None => None
          end
      end
  end.

(** *** Regular expressions

    The constructs that the patterns of the client use: a class of code
    units, a literal text, concatenation, a greedy repetition with a lower
    bound ([+] is [Rep 1], a star is [Rep 0], a bound of three and more is
    [Rep 3]) and one capturing group. *)
Inductive Re :=
| Chr (p : N -> bool)
| Str (l : jsstring)
| Cat (a b : Re)
| Rep (min : nat) (a : Re)
| Grp (a : Re).

(** Where a match ends: the input that follows it and the text of the
    capturing group. *)
Definition MatchEnd : Type := jsstring * option jsstring.

(** What a matcher does with an input, the group recorded so far and a
    continuation. *)
Definition Matcher : Type :=
  jsstring -> option jsstring ->
  (jsstring -> option jsstring -> option MatchEnd) -> option MatchEnd.

(** The loop of a greedy repetition with the lower bound [min] over the
    matcher [ma] of its body: another round is tried first, and the
    continuation [k] only when that fails.  A round that is run once the
    bound is met must consume input.  Every round consumes the bound or a
    unit of input, so a fuel above their sum is never used up. *)
Fixpoint rep_loop (ma : Matcher)
  (k : jsstring -> option jsstring -> option MatchEnd)
  (fuel min : nat) (s : jsstring) (cap : option jsstring)
  : option MatchEnd :=
  match fuel with
  | O => None
  | S fuel' =>
      match min with
      | S min' => ma s cap (fun s1 cap1 => rep_loop ma k fuel' min' s1 cap1)
      | O =>
          match ma s cap
                  (fun s1 cap1 =>
                     if (length s1 <? length s)%nat
                     then rep_loop ma k fuel' O s1 cap1 else None) with
          | Some res => Some res
          | None => k s cap
          end
      end
  end.

(** The backtracking matcher of ECMA-262, in continuation-passing style:
    [rmatch r s cap k] matches [r] at the front of [s] and hands what
    follows to [k]; when [k] fails the next alternative is tried. *)
Fixpoint rmatch (r : Re) (s : jsstring) (cap : option jsstring)
  (k : jsstring -> option jsstring -> option MatchEnd) {struct r}
  : option MatchEnd :=
  match r with
  | Chr p =>
      match s with
      | c :: s' => if p c then k s' cap else None
      | [] => None
      end
  | Str l =>
      match strip_prefix l s with
      | Some s' => k s' cap
      | None => None
      end
  | Cat a b => rmatch a s cap (fun s1 cap1 => rmatch b s1 cap1 k)
  | Grp a =>
      rmatch a s cap
        (fun s1 _ => k s1 (Some (take (length s - length s1) s)))
  | Rep min a => rep_loop (rmatch a) k (S (length s) + min) min s cap
  end.

(** A match of [r] that starts at the front of [s]. *)
Definition exec (r : Re) (s : jsstring) : option MatchEnd :=
  rmatch r s None (fun rest cap => Some (rest, cap)).

(** [s.replace(re, f)] for a pattern with the [g] flag: the input is scanned
    from left to right; where the pattern matches, the match is replaced by
    what [f] makes of the matched text and of the group, and the scan goes
    on behind the match ([skip] counts the units of the match still to be
    passed over); where it does not, the unit is kept. *)
Fixpoint replace_global (r : Re) (f : jsstring -> option jsstring -> jsstring)
  (skip : nat) (s : jsstring) : jsstring :=
  match s with
  | [] =>
      match skip, exec r [] with
      | O, Some (_, cap) => f [] cap
      | _, _ => []
      end
  | c :: s' =>
      match skip with
      | S n => replace_global r f n s'
      | O =>
          match exec r s with
          | Some (rest, cap) =>
              match (length s - length rest)%nat with
              | O => f [] cap ++ c :: replace_global r f 0 s'
              | S n => f (take (S n) s) cap ++ replace_global r f n s'
              end
          | None => c :: replace_global r f 0 s'
          end
      end
  end.

End Js.

Import Js.

(** ** Path helpers (scripts/utils.ts) *)

Module Utils.

(** [normalizePath(path)]; [isWindows] is the module constant computed from
    the user agent. *)
Definition normalizePath (isWindows : bool) (path : jsstring) : jsstring :=
  if isWindows then replace_all 47 92 path else replace_all 92 47 path.

(** [getFileNameFromPath(path)] *)
Definition getFileNameFromPath (path : jsstring) : jsstring :=
  let separator := if includes [92] path then 92 else 47 in
  or_else (default [] (last (split separator path))) [].

End Utils.

(** ** VirtualCodeBlock component (components/VirtualCodeBlock.tsx) *)

Module VirtualCodeBlock.

(** [content.split('\n')] *)
Definition lines (content : jsstring) : list jsstring := split 10 content.

Definition shouldUseVirtualScroll (content : jsstring) : bool :=
  Nat.ltb 50 (length (lines content)).

End VirtualCodeBlock.

(** ** ChatLog component (components/ChatLog.tsx) *)

Module ChatLog.

(** [metadata_json] is untyped in the source; the fields the component reads
    are kept.  [has_images] and [hidden_from_ui] stand for the ToBoolean of
    the stored value, [attachments] is [None] when the field is absent. *)
Record Attachment := { att_url : jsstring }.

Record Metadata := {
  has_images : bool;
  attachments : option (list Attachment);
  hidden_from_ui : bool;
}.

(** A frame handed to [onMessage] by the WebSocket hook. *)
Record WsMessage := {
  ws_id : option jsstring;
  ws_role : jsstring;
  ws_message_type : option jsstring;
  ws_content : option jsstring;
  ws_metadata_json : option Metadata;
  ws_parent_message_id : option jsstring;
  ws_session_id : option jsstring;
  ws_conversation_id : option jsstring;
  ws_created_at : option jsstring;
}.

Record ChatMessage := {
  id : jsstring;
  role : jsstring;
  message_type : option jsstring;
  content : jsstring;
  metadata_json : option Metadata;
  parent_message_id : option jsstring;
  session_id : option jsstring;
  conversation_id : option jsstring;
  created_at : jsstring;
}.

(** What the runtime supplies while a frame is handled: the text of
    [`${Date.now()}-${Math.random()}`] and of [new Date().toISOString()]. *)
Record Stamp := { fresh_id : jsstring; now_iso : jsstring }.

Record ActiveSession := { as_status : jsstring }.

Record State := {
  messages : list ChatMessage;
  isLoading : bool;
  activeSession : option ActiveSession;
  isWaitingForResponse : bool;
  pollIntervalRef : option N;
}.

Definition set_messages (f : list ChatMessage -> list ChatMessage)
  (st : State) : State :=
  {| messages := f (messages st); isLoading := isLoading st;
     activeSession := activeSession st;
     isWaitingForResponse := isWaitingForResponse st;
     pollIntervalRef := pollIntervalRef st |}.


Definition setIsWaitingForResponse (b : bool) (st : State) : State :=
  {| messages := messages st; isLoading := isLoading st;
     activeSession := activeSession st;
     isWaitingForResponse := b;
     pollIntervalRef := pollIntervalRef st |}.


(** The object literal built at the top of [onMessage]. *)
Definition chatMessage_of (env : Stamp) (message : WsMessage) : ChatMessage :=
  {| id := opt_or_else (ws_id message) (fresh_id env);
     role := ws_role message;
     message_type := ws_message_type message;
     content := opt_or_else (ws_content message) [];
     metadata_json := ws_metadata_json message;
     parent_message_id := ws_parent_message_id message;
     session_id := ws_session_id message;
     conversation_id := ws_conversation_id message;
     created_at := opt_or_else (ws_created_at message) (now_iso env) |}.

(** The updater passed to [setMessages] in [onMessage]. *)
Definition appendIfNew (chatMessage : ChatMessage) (prev : list ChatMessage)
  : list ChatMessage :=
  let exists_ := existsb (fun msg => str_eqb (id msg) (id chatMessage)) prev in
  if exists_ then prev else prev ++ [chatMessage].

Definition onMessage (env : Stamp) (message : WsMessage) (st : State) : State :=
  let chatMessage := chatMessage_of env message in
  let st1 :=
    if str_eqb (role chatMessage) (lit "assistant")
    then setIsWaitingForResponse false st else st in
  set_messages (appendIfNew chatMessage) st1.

(** A viewer that receives the frames [ds] one after the other. *)
Definition deliver (ds : list (Stamp * WsMessage)) (st : State) : State :=
  fold_left (fun s d => onMessage (fst d) (snd d) s) ds st.

(** *** Status events *)



(** Calls that leave the component. *)
Inductive Effect :=
| OnProjectStatusUpdate (status message : option jsstring)
| OnSessionStatusChange (isRunning : bool)
| CompleteRequest (requestId : jsstring) (isSuccessful : bool)
    (errorMessage : option jsstring)
| StartRequest (requestId : jsstring)
| ClearInterval (handle : N).






(** *** Cleaning and filtering what is shown *)

(** One position of [/\.\s*think\s+hard\.\s*$/]: a dot, blanks, "think", at
    least one blank, "hard.", blanks, end of input.  Every blank run is
    followed by a unit that is not blank (or by the end), so taking the whole
    run is the only way to match. *)
Definition think_hard_here (s : jsstring) : bool :=
  match s with
  | c :: r =>
      (c =? 46) &&
      match strip_prefix (lit "think") (trimStart r) with
      | Some r2 =>
          match r2 with
          | w :: _ =>
              is_ws w &&
              match strip_prefix (lit "hard.") (trimStart r2) with
              | Some r4 => negb (truthy (trimStart r4))
              | None => false
              end
          | [] => false
          end
      | None => false
      end
  | [] => false
  end.

Definition chat_mode_suffix : jsstring :=
  10 :: 10 :: lit "Do not modify code, only answer to the user's request.".

(** One position of
    [/\n\nDo not modify code, only answer to the user's request\.$/]. *)
Definition chat_suffix_here (s : jsstring) : bool := str_eqb s chat_mode_suffix.

Definition cleanUserMessage (content : jsstring) : jsstring :=
  if negb (truthy content) then content
  else
    let cleanedContent := replace_to_end think_hard_here content in
    let cleanedContent := replace_to_end chat_suffix_here cleanedContent in
    trim cleanedContent.

(** [message.metadata_json?.has_images ||
     message.metadata_json?.attachments?.length > 0] *)
Definition has_pictures (message : ChatMessage) : bool :=
  match metadata_json message with
  | Some md =>
      has_images md ||
      match attachments md with
      | Some l => negb (Nat.eqb (length l) 0)
      | None => false
      end
  | None => false
  end.

Definition marked_hidden (message : ChatMessage) : bool :=
  match metadata_json message with
  | Some md => hidden_from_ui md
  | None => false
  end.

Definition message_type_is (t : jsstring) (message : ChatMessage) : bool :=
  match message_type message with
  | Some mt => str_eqb mt t
  | None => false
  end.

Definition shouldDisplayMessage (message : ChatMessage) : bool :=
  if has_pictures message then true
  else if negb (truthy (content message))
          || negb (truthy (trim (content message))) then false
  else if message_type_is (lit "tool_result") message then false
  else if str_eqb (role message) (lit "system")
          && message_type_is (lit "system") message
          && (includes (lit "initialized") (content message)
              || includes (lit "Agent") (content message)) then false
  else if marked_hidden message then false
  else true.

(** What the component renders: [messages.filter(shouldDisplayMessage)]. *)
Definition displayed (st : State) : list ChatMessage :=
  List.filter shouldDisplayMessage (messages st).

(** *** The text of a user message *)

(** The class of [pathPattern]: neither a slash nor a blank. *)
Definition path_unit (c : N) : bool := negb (c =? 47) && negb (is_ws c).

(** The pattern of [shortenPath]: a slash and a component, three or more
    times a slash and a component, then a slash and, as the group, a file
    name with a dot inside. *)
Definition pathPattern : Re :=
  Cat (Chr (N.eqb 47))
    (Cat (Rep 1 (Chr path_unit))
       (Cat (Rep 3 (Cat (Chr (N.eqb 47)) (Rep 1 (Chr path_unit))))
          (Cat (Chr (N.eqb 47))
             (Grp (Cat (Rep 1 (Chr path_unit))
                     (Cat (Chr (N.eqb 46)) (Rep 1 (Chr path_unit)))))))).

Definition shortenPath (text : jsstring) : jsstring :=
  if negb (truthy text) then text
  else replace_global pathPattern
         (fun _ filename => lit ".../" ++ default [] filename) 0 text.

Definition is_digit (c : N) : bool := (48 <=? c) && (c <=? 57).

(** The pattern that removes the image paths: line feeds, "Image #", digits,
    " path: " and the rest of the line. *)
Definition imagePathPattern : Re :=
  Cat (Rep 0 (Chr (N.eqb 10)))
    (Cat (Str (lit "Image #"))
       (Cat (Rep 1 (Chr is_digit))
          (Cat (Str (lit " path: "))
             (Rep 1 (Chr (fun c => negb (c =? 10))))))).

(** What the bubble of a user message shows of the cleaned message: the
    image paths are removed, the rest is trimmed and, when something is
    left, shown with its paths shortened; [None] when no text is shown. *)
Definition textBlock (cleanedMessage : jsstring) : option jsstring :=
  let messageWithoutPaths :=
    trim (replace_global imagePathPattern (fun _ _ => []) 0 cleanedMessage) in
  if truthy messageWithoutPaths then Some (shortenPath messageWithoutPaths)
  else None.

(** The text shown for a user message with the content [content]. *)
Definition userMessageText (content : jsstring) : option jsstring :=
  textBlock (cleanUserMessage content).

(** *** Vocabulary and sample values for the properties *)

Definition ids (l : list ChatMessage) : list jsstring := List.map id l.

(** The frames of a delivery as the chat messages [onMessage] builds. *)
Definition incoming (ds : list (Stamp * WsMessage)) : list ChatMessage :=
  List.map (fun d => chatMessage_of (fst d) (snd d)) ds.

Definition absorb (ms prev : list ChatMessage) : list ChatMessage :=
  fold_left (fun acc m => appendIfNew m acc) ms prev.

Definition frame (i r c : string) : Stamp * WsMessage :=
  ({| fresh_id := lit "1700000000000-0.5"; now_iso := lit "2024-01-01T00:00:00.000Z" |},
   {| ws_id := Some (lit i); ws_role := lit r; ws_message_type := Some (lit "chat");
      ws_content := Some (lit c); ws_metadata_json := None;
      ws_parent_message_id := None; ws_session_id := Some (lit "s1");
      ws_conversation_id := None; ws_created_at := None |}).

(** The entry that a viewer holds for [frame i r c]. *)
Definition entry (i r c : string) : ChatMessage :=
  {| id := lit i; role := lit r; message_type := Some (lit "chat");
     content := lit c; metadata_json := None; parent_message_id := None;
     session_id := Some (lit "s1"); conversation_id := None;
     created_at := lit "2024-01-01T00:00:00.000Z" |}.

Definition fresh_viewer : State :=
  {| messages := []; isLoading := false; activeSession := None;
     isWaitingForResponse := true; pollIntervalRef := None |}.

Definition text_message (i r : string) (mt : option string) (c : string)
  (md : option Metadata) : ChatMessage :=
  {| id := lit i; role := lit r; message_type := lit <$> mt;
     content := lit c; metadata_json := md; parent_message_id := None;
     session_id := None; conversation_id := None;
     created_at := lit "2024-01-01T00:00:00.000Z" |}.

(** A bookkeeping record marked hidden that also carries the image flag. *)
Definition hidden_with_image : ChatMessage :=
  text_message "m7" "user" (Some "chat"%string) "internal continuation"
    (Some {| has_images := true; attachments := None; hidden_from_ui := true |}).

Definition hidden_result_record : ChatMessage :=
  text_message "m8" "assistant" (Some "chat"%string)
    "Session completed in 5120ms"
    (Some {| has_images := false; attachments := Some [];
             hidden_from_ui := true |}).





(** *** Loading the history *)

Definition setIsLoading (b : bool) (st : State) : State :=
  {| messages := messages st; isLoading := b;
     activeSession := activeSession st;
     isWaitingForResponse := isWaitingForResponse st;
     pollIntervalRef := pollIntervalRef st |}.

(** [loadChatHistory()]: [answer] is the list of messages in the body of
    the GET when it came back ok, [None] when it did not or was rejected. *)
Definition loadChatHistory (answer : option (list ChatMessage)) (st : State)
  : State :=
  match answer with
  | Some chatMessages =>
      setIsLoading false (set_messages (fun _ => chatMessages) st)
  | None => setIsLoading false st
  end.

(** *** Thinking sections *)

(** The blocks [renderContentWithThinking] returns: markdown before a
    thinking tag, a thinking section, markdown after the last tag, or the
    whole content as markdown. *)
Inductive Part :=
| MarkdownBefore (text : jsstring)
| Thinking (text : jsstring)
| MarkdownRest (text : jsstring)
| MarkdownWhole (content : jsstring).

Definition open_tag : jsstring := lit "<thinking>".
Definition close_tag : jsstring := lit "</thinking>".

(** The block pushed for the text after the last match. *)
Definition remaining_part (rest : jsstring) : list Part :=
  if truthy (trim rest) then [MarkdownRest (trim rest)] else [].

(** The loop over the matches of the thinking pattern (an opening tag, as
    few units as possible, a closing tag) from [rest] on: the leftmost match
    starts at the first opening tag and ends with the first closing tag
    after it.  Each round consumes a match, so a fuel above the length of
    [rest] is never used up. *)
Fixpoint thinkingParts (fuel : nat) (rest : jsstring) : list Part :=
  match fuel with
  | O => []
  | S fuel' =>
      match find_sub open_tag rest with
      | Some (before, after_open) =>
          match find_sub close_tag after_open with
          | Some (inner, after) =>
              (if truthy (trim before) then [MarkdownBefore (trim before)]
               else [])
              ++ (if truthy (trim inner) then [Thinking (trim inner)] else [])
              ++ thinkingParts fuel' after
          | None => remaining_part rest
          end
      | None => remaining_part rest
      end
  end.

Definition renderContentWithThinking (content : jsstring) : list Part :=
  match thinkingParts (S (length content)) content with
  | [] => [MarkdownWhole content]
  | parts => parts
  end.

(** *** Vocabulary for the further properties *)

(** The last unit of [s] that is not blank is a full stop. *)
Definition ends_in_period (s : jsstring) : bool :=
  match trimStart (rev s) with
  | c :: _ => c =? 46
  | [] => false
  end.

Definition part_text (p : Part) : jsstring :=
  match p with
  | MarkdownBefore t | Thinking t | MarkdownRest t | MarkdownWhole t => t
  end.

Definition is_whole (p : Part) : bool :=
  match p with MarkdownWhole _ => true | _ => false end.


End ChatLog.

(** ** Objects shared by the components *)

(** The answer of the network to one [fetch]: it rejects, or it resolves to
    a response with its [ok] flag and the part of the body that the caller
    reads. *)
Inductive Fetched (A : Type) :=
| NetworkError
| Response (ok : bool) (payload : A).
Arguments NetworkError {A}.
Arguments Response {A} ok payload.

(** An element of the [images] argument of [runAct], typed [any] in the
    source: the union of the fields of an [UploadedFile] (chat input) and of
    the page's own [{name, url, base64}] entries.  An absent field is
    [None]. *)
Record ImageObj := {
  img_id : option jsstring;
  img_filename : option jsstring;
  img_path : option jsstring;
  img_url : option jsstring;
  img_file_type : option jsstring;
  img_name : option jsstring;
  img_base64 : option jsstring;
}.

(** ** ChatInput component (components/chat/ChatInput.tsx) *)

Module ChatInput.

Record UploadedFile := {
  uf_id : jsstring;
  filename : jsstring;
  path : jsstring;
  url : jsstring;
  file_type : jsstring;
}.

(** The same object seen through the [any] typed parameter of the page. *)
Definition as_any (f : UploadedFile) : ImageObj :=
  {| img_id := Some (uf_id f); img_filename := Some (filename f);
     img_path := Some (path f); img_url := Some (url f);
     img_file_type := Some (file_type f);
     img_name := None; img_base64 := None |}.

Record State := {
  message : jsstring;
  uploadedImages : list UploadedFile;
}.

Definition default_file_message : jsstring :=
  lit "Please analyze the uploaded file(s).".

(** [handleSubmit]: the new state and the call of [onSendMessage], if any. *)
Definition handleSubmit (disabled : bool) (st : State)
  : State * option (jsstring * list UploadedFile) :=
  if (truthy (trim (message st))
      || negb (Nat.eqb (length (uploadedImages st)) 0))
     && negb disabled
  then
    let finalMessage :=
      or_else (trim (message st))
        (if negb (Nat.eqb (length (uploadedImages st)) 0)
         then default_file_message else []) in
    ({| message := []; uploadedImages := [] |},
     Some (finalMessage, uploadedImages st))
  else (st, None).

(** *** The file picker opened by "@" *)

Record FileItem := {
  fi_path : jsstring;
  fi_type : jsstring;
  fi_name : jsstring;
}.

Record Picker := {
  showFileAutocomplete : bool;
  fileSearchResults : list FileItem;
  selectedFileIndex : Z;
  atSymbolStart : Z;
}.

(** The match of [textBeforeCursor] against the pattern "@", then a captured
    run of non-blank units, then the end of the input: the capture group of
    the leftmost match, that is, what follows the first "@" after which no
    blank occurs up to the end. *)
Fixpoint at_query (textBeforeCursor : jsstring) : option jsstring :=
  match textBeforeCursor with
  | [] => None
  | c :: r =>
      if (c =? 64) && forallb (fun x => negb (is_ws x)) r then Some r
      else at_query r
  end.

(** [handleTextareaChange]: the new message, the picker, and the query
    handed to [searchFiles] if any.  [cursorPos] is [selectionStart]. *)
Definition handleTextareaChange (value : jsstring) (cursorPos : nat)
  (pk : Picker) : jsstring * Picker * option jsstring :=
  let textBeforeCursor := take cursorPos value in
  match at_query textBeforeCursor with
  | Some query =>
      let atPos := (Z.of_nat cursorPos - Z.of_nat (length query) - 1)%Z in
      (value,
       {| showFileAutocomplete := true;
          fileSearchResults := fileSearchResults pk;
          selectedFileIndex := 0;
          atSymbolStart := atPos |},
       Some query)
  | None =>
      (value,
       {| showFileAutocomplete := false;
          fileSearchResults := fileSearchResults pk;
          selectedFileIndex := selectedFileIndex pk;
          atSymbolStart := (-1)%Z |},
       None)
  end.

(** [handleFileSelect(file)]: the new message, the picker, and the cursor
    position set by the timer.  [cursorPos] is [None] when the textarea ref
    is not attached. *)
Definition handleFileSelect (file : FileItem) (cursorPos : option nat)
  (currentValue : jsstring) (pk : Picker)
  : jsstring * Picker * option Z :=
  match cursorPos with
  | None => (currentValue, pk, None)
  | Some cursorPos =>
      if Z.eqb (atSymbolStart pk) (-1) then (currentValue, pk, None)
      else
        let textBeforeCursor := take cursorPos currentValue in
        let textAfterCursor := drop cursorPos currentValue in
        let beforeAt := take (Z.to_nat (atSymbolStart pk)) textBeforeCursor in
        let newValue :=
          beforeAt ++ 64 :: fi_path file ++ 32 :: textAfterCursor in
        (newValue,
         {| showFileAutocomplete := false;
            fileSearchResults := fileSearchResults pk;
            selectedFileIndex := selectedFileIndex pk;
            atSymbolStart := (-1)%Z |},
         Some (Z.of_nat (length beforeAt) + Z.of_nat (length (fi_path file)) + 2)%Z)
  end.

Inductive KeyAction :=
| KeyIgnored
| KeyPrevented
| KeySelect (file : option FileItem)   (* handleFileSelect(results[index]) *)
| KeySubmit.                           (* handleSubmit(e) *)

(** [fileSearchResults[selectedFileIndex]] *)
Definition result_at (pk : Picker) : option FileItem :=
  if (selectedFileIndex pk <? 0)%Z then None
  else fileSearchResults pk !! Z.to_nat (selectedFileIndex pk).

Definition set_selectedFileIndex (i : Z) (pk : Picker) : Picker :=
  {| showFileAutocomplete := showFileAutocomplete pk;
     fileSearchResults := fileSearchResults pk;
     selectedFileIndex := i;
     atSymbolStart := atSymbolStart pk |}.

(** [handleKeyDown(e)] with [e.key] and [e.shiftKey]. *)
Definition handleKeyDown (key : jsstring) (shiftKey : bool) (pk : Picker)
  : Picker * KeyAction :=
  let len := Z.of_nat (length (fileSearchResults pk)) in
  let enter := str_eqb key (lit "Enter") && negb shiftKey in
  if showFileAutocomplete pk && (0 <? len)%Z then
    if str_eqb key (lit "ArrowDown") then
      (set_selectedFileIndex
         (if (selectedFileIndex pk <? len - 1)%Z
          then (selectedFileIndex pk + 1)%Z else 0%Z) pk,
       KeyPrevented)
    else if str_eqb key (lit "ArrowUp") then
      (set_selectedFileIndex
         (if (0 <? selectedFileIndex pk)%Z
          then (selectedFileIndex pk - 1)%Z else (len - 1)%Z) pk,
       KeyPrevented)
    else if enter then (pk, KeySelect (result_at pk))
    else if str_eqb key (lit "Escape") then
      ({| showFileAutocomplete := false;
          fileSearchResults := fileSearchResults pk;
          selectedFileIndex := selectedFileIndex pk;
          atSymbolStart := (-1)%Z |},
       KeyPrevented)
    else (pk, KeyIgnored)
  else if enter then (pk, KeySubmit)
  else (pk, KeyIgnored).

(** *** Uploading attachments *)

Record File := { f_name : jsstring; f_type : jsstring }.

(** The test at the top of the loop of [handleFiles]. *)
Definition isSupported (file : File) : bool :=
  let isImage := startsWith (lit "image/") (f_type file) in
  let isCsv :=
    str_eqb (f_type file) (lit "text/csv")
    || str_eqb (f_type file) (lit "application/csv")
    || endsWith (lit ".csv") (f_name file) in
  let isTxt :=
    str_eqb (f_type file) (lit "text/plain")
    || endsWith (lit ".txt") (f_name file) in
  isImage || isCsv || isTxt.

(** The fields read from the JSON answer of the upload. *)
Record UploadResult := {
  res_filename : jsstring;
  res_absolute_path : jsstring;
  res_file_type : option jsstring;
}.

(** What the runtime supplies for one file of the batch: the value of
    [crypto.randomUUID()] and the answer to the upload POST. *)
Record UploadEnv := {
  up_uuid : jsstring;
  up_answer : Fetched UploadResult;
}.

Inductive UploadEffect :=
| UploadPost (name : jsstring)     (* POST /api/assets/<project>/upload *)
| UploadAlert.                     (* alert('Failed to upload file...') *)

(** The [newFile] literal; [assets] is the text of
    [`${API_BASE}/api/assets/${projectId}/`]. *)
Definition newFile (assets : jsstring) (env : UploadEnv) (result : UploadResult)
  : UploadedFile :=
  {| uf_id := up_uuid env;
     filename := res_filename result;
     path := res_absolute_path result;
     url := assets ++ res_filename result;
     file_type := opt_or_else (res_file_type result) (lit "unknown") |}.

(** The loop of [handleFiles]: the attachments, the requests made, and
    whether an upload failed (which leaves the loop through the catch
    block). *)
Fixpoint uploadLoop (assets : jsstring) (files : list (File * UploadEnv))
  (acc : list UploadedFile) : list UploadedFile * list UploadEffect * bool :=
  match files with
  | [] => (acc, [], false)
  | (file, env) :: rest =>
      if negb (isSupported file) then uploadLoop assets rest acc
      else
        match up_answer env with
        | Response true result =>
            let '(acc', es, failed) :=
              uploadLoop assets rest (acc ++ [newFile assets env result]) in
            (acc', UploadPost (f_name file) :: es, failed)
        | _ => (acc, [UploadPost (f_name file)], true)
        end
  end.

(** [handleFiles(files)] *)
Definition handleFiles (projectId : option jsstring) (assets : jsstring)
  (files : list (File * UploadEnv)) (st : State)
  : State * list UploadEffect :=
  if negb (truthy_opt projectId) then (st, [])
  else
    let '(imgs, es, failed) := uploadLoop assets files (uploadedImages st) in
    ({| message := message st; uploadedImages := imgs |},
     es ++ (if failed then [UploadAlert] else [])).

(** [removeImage(id)] *)
Definition removeImage (id : jsstring) (st : State) : State :=
  {| message := message st;
     uploadedImages :=
       List.filter (fun img => negb (str_eqb (uf_id img) id))
         (uploadedImages st) |}.

(** A clipboard item: its type and what [getAsFile()] returns. *)
Record ClipboardItem := { item_type : jsstring; item_file : option File }.

(** The files [handlePaste] hands to [handleFiles]. *)
Definition pastedFiles (items : list ClipboardItem) : list File :=
  omap (fun item =>
          if startsWith (lit "image/") (item_type item)
             || str_eqb (item_type item) (lit "text/csv")
             || str_eqb (item_type item) (lit "application/csv")
             || str_eqb (item_type item) (lit "text/plain")
          then item_file item else None) items.

(** *** Vocabulary for the properties of uploads *)

Definition uploaded_ok (env : UploadEnv) : bool :=
  match up_answer env with Response true _ => true | _ => false end.

(** The attachment a file of the batch gives when it is supported and its
    upload succeeds. *)
Definition succeeded (assets : jsstring) (fe : File * UploadEnv)
  : option UploadedFile :=
  if isSupported (fst fe) then
    match up_answer (snd fe) with
    | Response true result => Some (newFile assets (snd fe) result)
    | _ => None
    end
  else None.

Definition supported_names (files : list (File * UploadEnv)) : list jsstring :=
  List.map (fun fe => f_name (fst fe))
    (List.filter (fun fe => isSupported (fst fe)) files).

Definition typed_mention : jsstring := lit "open @src/ma and run".

Definition open_picker : Picker :=
  {| showFileAutocomplete := true;
     fileSearchResults :=
       [{| fi_path := lit "a.py"; fi_type := lit "file"; fi_name := lit "a.py" |};
        {| fi_path := lit "b.py"; fi_type := lit "file"; fi_name := lit "b.py" |}];
     selectedFileIndex := 1;
     atSymbolStart := 0 |}.

Definition clipboard_png : list ClipboardItem :=
  [{| item_type := lit "text/html"; item_file := None |};
   {| item_type := lit "image/png";
      item_file := Some {| f_name := lit "image.png";
                           f_type := lit "image/png" |} |}].

End ChatInput.

(** ** Chat page (app/[project_id]/chat/page.tsx) *)

Module ChatPage.

Inductive Mode := act | chat.

Inductive ProcessedImage :=
| PathImage (path name : jsstring)
| Base64Image (name : option jsstring) (base64_data mime_type : option jsstring)
| RawImage (img : ImageObj).

(** The callback of [imagesToUse.map]. *)
Definition processImage (img : ImageObj) : ProcessedImage :=
  if truthy_opt (img_path img) then
    PathImage (default [] (img_path img))
      (opt_or_else (img_filename img) (opt_or_else (img_name img) (lit "image")))
  else if truthy_opt (img_base64 img) then
    let b := default [] (img_base64 img) in
    Base64Image (img_name img)
      (split 44 b !! 1%nat)
      (split 58 (default [] (head (split 59 b))) !! 1%nat)
  else RawImage img.

Record RequestBody := {
  instruction : jsstring;
  images : list ProcessedImage;
  is_initial_prompt : bool;
  cli_preference : option jsstring;
  selected_model : option jsstring;
  request_id : jsstring;
  body_session_id : option jsstring;
}.

Inductive Endpoint :=
| ApiChat (mode : Mode)        (* POST /api/chat/<project>/act or /chat *)
| ApiInterrupt                 (* POST /api/chat/<project>/interrupt *)
| ApiPreviewStart              (* POST /api/projects/<project>/preview/start *)
| ApiPreviewStop.              (* POST /api/projects/<project>/preview/stop *)

(** The texts shown through [alert] and in the preview banner are kept as
    tags. *)
Inductive AlertText :=
| AlertNeedInput          (* asks for an instruction or an image *)
| AlertApiError (errorText : jsstring)
| AlertException
| AlertNotConnected.

Inductive PreviewMessage :=
| MsgStartingServer | MsgStartFailed | MsgReady | MsgError.

Inductive TimerCallback :=
| PreviewReady (newUrl : option jsstring)
| StartingDone
| SendInitialPrompt (initialPrompt : jsstring).

Inductive Effect :=
| Alert (text : AlertText)
| HttpPost (target : Endpoint) (body : option RequestBody)
| CreateRequest (requestId : jsstring) (sessionId : option jsstring)
    (instruction : jsstring) (mode : Mode)
| LoadTree
| RevokeObjectURL (url : jsstring)
| LocalStorageSet (key value : jsstring)
| SessionStorageSet (key value : jsstring)
| HistoryReplaceState
| SetTimeout (callback : TimerCallback) (ms : N).

(** *** runAct *)

Record LocalImage := { li_name : jsstring; li_url : jsstring; li_base64 : jsstring }.

Definition local_as_any (i : LocalImage) : ImageObj :=
  {| img_id := None; img_filename := None; img_path := None;
     img_url := Some (li_url i); img_file_type := None;
     img_name := Some (li_name i); img_base64 := Some (li_base64 i) |}.

Record RunState := {
  prompt : jsstring;
  mode : Mode;
  isRunning : bool;
  uploadedImages : list LocalImage;
  sessionId : jsstring;
  preferredCli : jsstring;
  selectedModel : jsstring;
}.

Definition setIsRunning (b : bool) (st : RunState) : RunState :=
  {| prompt := prompt st; mode := mode st; isRunning := b;
     uploadedImages := uploadedImages st; sessionId := sessionId st;
     preferredCli := preferredCli st; selectedModel := selectedModel st |}.

Definition setSessionId (v : jsstring) (st : RunState) : RunState :=
  {| prompt := prompt st; mode := mode st; isRunning := isRunning st;
     uploadedImages := uploadedImages st; sessionId := v;
     preferredCli := preferredCli st; selectedModel := selectedModel st |}.

Definition setPrompt (v : jsstring) (st : RunState) : RunState :=
  {| prompt := v; mode := mode st; isRunning := isRunning st;
     uploadedImages := uploadedImages st; sessionId := sessionId st;
     preferredCli := preferredCli st; selectedModel := selectedModel st |}.

Definition setUploadedImages (v : list LocalImage) (st : RunState) : RunState :=
  {| prompt := prompt st; mode := mode st; isRunning := isRunning st;
     uploadedImages := v; sessionId := sessionId st;
     preferredCli := preferredCli st; selectedModel := selectedModel st |}.

Definition default_image_message : jsstring :=
  lit "Please analyze the uploaded image(s).".

Definition chat_mode_suffix : jsstring :=
  10 :: 10 :: lit "Do not modify code, only answer to the user's request.".

(** The instruction [runAct] settles on before anything is sent; [None] when
    the input is refused. *)
Definition finalMessage_of (m : Mode) (finalMessage : jsstring)
  (imagesToUse : list ImageObj) : option jsstring :=
  if negb (truthy (trim finalMessage)) && Nat.eqb (length imagesToUse) 0
  then None
  else
    let finalMessage :=
      if negb (truthy (trim finalMessage))
         && negb (Nat.eqb (length imagesToUse) 0)
      then default_image_message else finalMessage in
    Some match m with
         | chat => finalMessage ++ chat_mode_suffix
         | act => finalMessage
         end.

(** [sessionId || null] *)
Definition or_null (s : jsstring) : option jsstring :=
  if truthy s then Some s else None.

(** What the caller reads from the response of the chat POST: [r.text()]
    when it failed, [result.session_id] when it succeeded. *)
Record ChatReply := {
  reply_text : jsstring;
  reply_session_id : option jsstring;
}.

(** [runAct(messageOverride, externalImages)].  [requestId] is the value of
    [crypto.randomUUID()], [answer] what the POST comes back with. *)
Definition runAct (messageOverride : option jsstring)
  (externalImages : option (list ImageObj))
  (requestId : jsstring) (answer : Fetched ChatReply)
  (st : RunState) : RunState * list Effect :=
  let finalMessage := opt_or_else messageOverride (prompt st) in
  let imagesToUse :=
    match externalImages with
    | Some l => l
    | None => List.map local_as_any (uploadedImages st)
    end in
  match finalMessage_of (mode st) finalMessage imagesToUse with
  | None => (st, [Alert AlertNeedInput])
  | Some finalMessage =>
      let requestBody :=
        {| instruction := finalMessage;
           images := List.map processImage imagesToUse;
           is_initial_prompt := false;
           cli_preference := Some (preferredCli st);
           selected_model := Some (selectedModel st);
           request_id := requestId;
           body_session_id := or_null (sessionId st) |} in
      let post := HttpPost (ApiChat (mode st)) (Some requestBody) in
      match answer with
      | NetworkError => (setIsRunning false st, [post; Alert AlertException])
      | Response false r =>
          (setIsRunning false st, [post; Alert (AlertApiError (reply_text r))])
      | Response true r =>
          let session_id := reply_session_id r in
          let st1 := setSessionId (opt_or_else session_id []) st in
          let st2 := setPrompt [] st1 in
          let revoked :=
            List.map (fun img => RevokeObjectURL (li_url img))
              (List.filter (fun img => truthy (li_url img)) (uploadedImages st)) in
          let st3 :=
            if Nat.eqb (length (uploadedImages st)) 0 then st2
            else setUploadedImages [] st2 in
          (setIsRunning false st3,
           [post; CreateRequest requestId session_id finalMessage (mode st);
            LoadTree] ++ revoked)
      end
  end.

(** What the chat input's [onSendMessage] prop does on the page. *)
Definition onSendMessage (sent : jsstring * list ChatInput.UploadedFile)
  (requestId : jsstring) (answer : Fetched ChatReply)
  (st : RunState) : RunState * list Effect :=
  runAct (Some (fst sent)) (Some (List.map ChatInput.as_any (snd sent)))
    requestId answer st.

(** A submission typed into the chat input, carried through to the page. *)
Definition submit (disabled : bool) (input : ChatInput.State)
  (requestId : jsstring) (answer : Fetched ChatReply)
  (st : RunState) : ChatInput.State * RunState * list Effect :=
  match ChatInput.handleSubmit disabled input with
  | (input', Some sent) =>
      let '(st', es) := onSendMessage sent requestId answer st in
      (input', st', es)
  | (input', None) => (input', st, [])
  end.

(** The request body of the chat POST in a trace, if one was issued. *)
Definition sent_body (es : list Effect) : option RequestBody :=
  head (omap (fun e => match e with
                       | HttpPost (ApiChat _) (Some b) => Some b
                       | _ => None
                       end) es).

Definition posts_to (target : Endpoint -> bool) (es : list Effect) : nat :=
  length (List.filter (fun e => match e with
                                | HttpPost t _ => target t
                                | _ => false
                                end) es).

(** *** Preview control: start, stop, chatInputStop *)

Record PreviewState := {
  previewUrl : option jsstring;
  recordInterruptState : bool;
  isStartingPreview : bool;
  previewInitializationMessage : PreviewMessage;
  currentRoute : jsstring;
  previousActiveState : bool;          (* the ref next to the effect *)
  hasInitialPrompt : bool;
  agentWorkComplete : bool;
  pv_isRunning : bool;
}.

Definition setPreviewUrl (v : option jsstring) (st : PreviewState) :=
  {| previewUrl := v; recordInterruptState := recordInterruptState st;
     isStartingPreview := isStartingPreview st;
     previewInitializationMessage := previewInitializationMessage st;
     currentRoute := currentRoute st;
     previousActiveState := previousActiveState st;
     hasInitialPrompt := hasInitialPrompt st;
     agentWorkComplete := agentWorkComplete st;
     pv_isRunning := pv_isRunning st |}.

Definition setRecordInterruptState (v : bool) (st : PreviewState) :=
  {| previewUrl := previewUrl st; recordInterruptState := v;
     isStartingPreview := isStartingPreview st;
     previewInitializationMessage := previewInitializationMessage st;
     currentRoute := currentRoute st;
     previousActiveState := previousActiveState st;
     hasInitialPrompt := hasInitialPrompt st;
     agentWorkComplete := agentWorkComplete st;
     pv_isRunning := pv_isRunning st |}.

Definition setIsStartingPreview (v : bool) (st : PreviewState) :=
  {| previewUrl := previewUrl st;
     recordInterruptState := recordInterruptState st;
     isStartingPreview := v;
     previewInitializationMessage := previewInitializationMessage st;
     currentRoute := currentRoute st;
     previousActiveState := previousActiveState st;
     hasInitialPrompt := hasInitialPrompt st;
     agentWorkComplete := agentWorkComplete st;
     pv_isRunning := pv_isRunning st |}.

Definition setPreviewInitializationMessage (v : PreviewMessage)
  (st : PreviewState) :=
  {| previewUrl := previewUrl st;
     recordInterruptState := recordInterruptState st;
     isStartingPreview := isStartingPreview st;
     previewInitializationMessage := v;
     currentRoute := currentRoute st;
     previousActiveState := previousActiveState st;
     hasInitialPrompt := hasInitialPrompt st;
     agentWorkComplete := agentWorkComplete st;
     pv_isRunning := pv_isRunning st |}.

Definition setCurrentRoute (v : jsstring) (st : PreviewState) :=
  {| previewUrl := previewUrl st;
     recordInterruptState := recordInterruptState st;
     isStartingPreview := isStartingPreview st;
     previewInitializationMessage := previewInitializationMessage st;
     currentRoute := v;
     previousActiveState := previousActiveState st;
     hasInitialPrompt := hasInitialPrompt st;
     agentWorkComplete := agentWorkComplete st;
     pv_isRunning := pv_isRunning st |}.

Definition set_previousActiveState (v : bool) (st : PreviewState) :=
  {| previewUrl := previewUrl st;
     recordInterruptState := recordInterruptState st;
     isStartingPreview := isStartingPreview st;
     previewInitializationMessage := previewInitializationMessage st;
     currentRoute := currentRoute st;
     previousActiveState := v;
     hasInitialPrompt := hasInitialPrompt st;
     agentWorkComplete := agentWorkComplete st;
     pv_isRunning := pv_isRunning st |}.

Definition setAgentWorkComplete (v : bool) (st : PreviewState) :=
  {| previewUrl := previewUrl st;
     recordInterruptState := recordInterruptState st;
     isStartingPreview := isStartingPreview st;
     previewInitializationMessage := previewInitializationMessage st;
     currentRoute := currentRoute st;
     previousActiveState := previousActiveState st;
     hasInitialPrompt := hasInitialPrompt st;
     agentWorkComplete := v;
     pv_isRunning := pv_isRunning st |}.

Definition pv_setIsRunning (v : bool) (st : PreviewState) :=
  {| previewUrl := previewUrl st;
     recordInterruptState := recordInterruptState st;
     isStartingPreview := isStartingPreview st;
     previewInitializationMessage := previewInitializationMessage st;
     currentRoute := currentRoute st;
     previousActiveState := previousActiveState st;
     hasInitialPrompt := hasInitialPrompt st;
     agentWorkComplete := agentWorkComplete st;
     pv_isRunning := v |}.

(** How the preview endpoints answer during one call; the payload of the
    start answer is [data.url]. *)
Record Net := {
  preview_start : Fetched (option jsstring);
  preview_stop : Fetched unit;
}.

(** [stop()]: the state is reset once the POST has resolved, whatever its
    status; a rejected POST is caught and only logged.  The functions of
    this part return the state reached when the awaited request has come
    back, together with everything that was sent or scheduled on the way. *)
Definition stop (net : Net) (st : PreviewState) : PreviewState * list Effect :=
  match preview_stop net with
  | Response _ _ =>
      (setCurrentRoute []
         (setRecordInterruptState false (setPreviewUrl None st)),
       [HttpPost ApiPreviewStop None])
  | NetworkError => (st, [HttpPost ApiPreviewStop None])
  end.

(** [start(url = '')] as the closure of a render runs it: [interrupted] is
    the value of [recordInterruptState] in that render, the setters act on
    the current state [st].  With the interrupt flag set it calls [stop]
    (without awaiting it) and returns. *)
Definition start_seen (interrupted : bool) (url : jsstring) (net : Net)
  (st : PreviewState) : PreviewState * list Effect :=
  if interrupted then stop net st
  else
    let st1 :=
      setPreviewInitializationMessage MsgStartingServer
        (setIsStartingPreview true st) in
    if truthy url then
      (setPreviewInitializationMessage MsgReady st1,
       [SetTimeout (PreviewReady (Some url)) 1000])
    else
      match preview_start net with
      | Response true data_url =>
          (setPreviewInitializationMessage MsgReady st1,
           [HttpPost ApiPreviewStart None;
            SetTimeout (PreviewReady data_url) 1000])
      | Response false _ =>
          (setPreviewInitializationMessage MsgStartFailed st1,
           [HttpPost ApiPreviewStart None; SetTimeout StartingDone 2000])
      | NetworkError =>
          (setPreviewInitializationMessage MsgError st1,
           [HttpPost ApiPreviewStart None; SetTimeout StartingDone 2000])
      end.

(** [start] called from the render that shows the state [st]. *)
Definition start (url : jsstring) (net : Net) (st : PreviewState)
  : PreviewState * list Effect :=
  start_seen (recordInterruptState st) url net st.

(** The timer callbacks scheduled by [start]. *)
Definition run_preview_timer (cb : TimerCallback) (st : PreviewState)
  : PreviewState :=
  match cb with
  | PreviewReady newUrl =>
      setCurrentRoute [] (setIsStartingPreview false (setPreviewUrl newUrl st))
  | StartingDone => setIsStartingPreview false st
  | SendInitialPrompt _ => st
  end.

(** [chatInputStop()]: the flag is raised when the interrupt POST came back
    ok; otherwise the user is alerted and the error is thrown again
    (second component [true]). *)
Definition chatInputStop (answer : Fetched unit) (st : PreviewState)
  : PreviewState * bool * list Effect :=
  match answer with
  | Response true _ =>
      (setRecordInterruptState true st, false, [HttpPost ApiInterrupt None])
  | _ => (st, true, [HttpPost ApiInterrupt None; Alert AlertNotConnected])
  end.

(** The effect with dependencies [hasActiveRequests, previewUrl]. *)
Definition autoPreviewEffect (hasActiveRequests : bool) (net : Net)
  (st : PreviewState) : PreviewState * list Effect :=
  let stop_branch := hasActiveRequests && truthy_opt (previewUrl st) in
  let start_branch :=
    previousActiveState st && negb hasActiveRequests
    && negb (truthy_opt (previewUrl st)) in
  let '(st1, e1) := if stop_branch then stop net st else (st, []) in
  let '(st2, e2) := if start_branch then start [] net st1 else (st1, []) in
  (set_previousActiveState hasActiveRequests st2, e1 ++ e2).

(** The key [`project_${projectId}_taskComplete`] of the local storage. *)
Definition taskComplete_key (projectId : jsstring) : jsstring :=
  lit "project_" ++ projectId ++ lit "_taskComplete".

(** The [onSessionStatusChange] prop handed to ChatLog.  It is an arrow
    function made anew by every render: its tests read [hasInitialPrompt],
    [agentWorkComplete] and [previewUrl] as the render that made it saw
    them ([seen]), and the [start] it calls is the function of that render;
    the setters act on the current state [st]. *)
Definition onSessionStatusChange (projectId : jsstring) (seen : PreviewState)
  (isRunningValue : bool) (net : Net) (st : PreviewState)
  : PreviewState * list Effect :=
  let st1 := pv_setIsRunning isRunningValue st in
  if negb isRunningValue && hasInitialPrompt seen
     && negb (agentWorkComplete seen) && negb (truthy_opt (previewUrl seen))
  then
    let '(st2, es) :=
      start_seen (recordInterruptState seen) [] net
        (setAgentWorkComplete true st1) in
    (st2, LocalStorageSet (taskComplete_key projectId) (lit "true") :: es)
  else (st1, []).

Definition is_preview_start (t : Endpoint) : bool :=
  match t with ApiPreviewStart => true | _ => false end.

Definition is_preview_stop (t : Endpoint) : bool :=
  match t with ApiPreviewStop => true | _ => false end.

(** *** The initial prompt *)

Record InitialState := {
  initialPromptSentRef : bool;
  initialPromptSent : bool;
  ip_isRunning : bool;
  ip_agentWorkComplete : bool;
  ip_sessionId : jsstring;
  ip_prompt : jsstring;
}.

Definition set_initialPromptSentRef (v : bool) (st : InitialState) :=
  {| initialPromptSentRef := v; initialPromptSent := initialPromptSent st;
     ip_isRunning := ip_isRunning st;
     ip_agentWorkComplete := ip_agentWorkComplete st;
     ip_sessionId := ip_sessionId st; ip_prompt := ip_prompt st |}.

Definition setInitialPromptSent (v : bool) (st : InitialState) :=
  {| initialPromptSentRef := initialPromptSentRef st; initialPromptSent := v;
     ip_isRunning := ip_isRunning st;
     ip_agentWorkComplete := ip_agentWorkComplete st;
     ip_sessionId := ip_sessionId st; ip_prompt := ip_prompt st |}.

Definition ip_setIsRunning (v : bool) (st : InitialState) :=
  {| initialPromptSentRef := initialPromptSentRef st;
     initialPromptSent := initialPromptSent st;
     ip_isRunning := v;
     ip_agentWorkComplete := ip_agentWorkComplete st;
     ip_sessionId := ip_sessionId st; ip_prompt := ip_prompt st |}.

Definition ip_setAgentWorkComplete (v : bool) (st : InitialState) :=
  {| initialPromptSentRef := initialPromptSentRef st;
     initialPromptSent := initialPromptSent st;
     ip_isRunning := ip_isRunning st;
     ip_agentWorkComplete := v;
     ip_sessionId := ip_sessionId st; ip_prompt := ip_prompt st |}.

Definition ip_setSessionId (v : jsstring) (st : InitialState) :=
  {| initialPromptSentRef := initialPromptSentRef st;
     initialPromptSent := initialPromptSent st;
     ip_isRunning := ip_isRunning st;
     ip_agentWorkComplete := ip_agentWorkComplete st;
     ip_sessionId := v; ip_prompt := ip_prompt st |}.

Definition ip_setPrompt (v : jsstring) (st : InitialState) :=
  {| initialPromptSentRef := initialPromptSentRef st;
     initialPromptSent := initialPromptSent st;
     ip_isRunning := ip_isRunning st;
     ip_agentWorkComplete := ip_agentWorkComplete st;
     ip_sessionId := ip_sessionId st; ip_prompt := v |}.

(** The query parameters read by the trigger. *)
Record SearchParams := {
  initial_prompt : option jsstring;
  cli : option jsstring;
  model : option jsstring;
}.

Definition storage_set (key : string) (v : option jsstring) : list Effect :=
  match v with
  | Some x => if truthy x then [SessionStorageSet (lit key) x] else []
  | None => []
  end.

(** [triggerInitialPromptIfNeeded()] *)
Definition triggerInitialPromptIfNeeded (searchParams : SearchParams)
  (st : InitialState) : InitialState * list Effect :=
  match initial_prompt searchParams with
  | None => (st, [])
  | Some initialPromptFromUrl =>
      if negb (truthy initialPromptFromUrl) then (st, [])
      else if initialPromptSentRef st then (st, [])
      else
        (setInitialPromptSent true (set_initialPromptSentRef true st),
         storage_set "selectedAssistant" (cli searchParams)
         ++ storage_set "selectedModel" (model searchParams)
         ++ [SetTimeout (SendInitialPrompt initialPromptFromUrl) 300])
  end.

(** [sendInitialPrompt(initialPrompt)].  [seen_sent] is the value of the
    [initialPromptSent] state cell in the render whose closure runs. *)
Definition sendInitialPrompt (projectId : jsstring) (seen_sent : bool)
  (initialPrompt : jsstring) (requestId : jsstring)
  (answer : Fetched ChatReply) (st : InitialState)
  : InitialState * list Effect :=
  if seen_sent then (st, [])
  else
    let st1 := ip_setAgentWorkComplete false st in
    let st2 := setInitialPromptSent true (ip_setIsRunning true st1) in
    let requestBody :=
      {| instruction := initialPrompt;
         images := [];
         is_initial_prompt := true;
         cli_preference := None;
         selected_model := None;
         request_id := requestId;
         body_session_id := or_null (ip_sessionId st) |} in
    let pre :=
      [LocalStorageSet (taskComplete_key projectId) (lit "false");
       HttpPost (ApiChat act) (Some requestBody)] in
    match answer with
    | Response true r =>
        (ip_setIsRunning false
           (ip_setPrompt []
              (ip_setSessionId (opt_or_else (reply_session_id r) []) st2)),
         pre ++ [CreateRequest requestId (reply_session_id r) initialPrompt act;
                 HistoryReplaceState])
    | Response false _ | NetworkError =>
        (ip_setIsRunning false (setInitialPromptSent false st2), pre)
    end.

(** The page as far as the initial prompt goes: the state cells and the
    timers that [triggerInitialPromptIfNeeded] has set and that have not
    fired yet. *)
Record InitialPage := {
  ip_state : InitialState;
  ip_timers : list TimerCallback;
}.

(** What can happen to that page: either call site of the trigger runs, or
    the oldest pending timer fires and [sendInitialPrompt] runs to its end
    with the given outcome of its request.  Whether a send posts depends
    only on [seen_sent], so taking the request and its outcome as one event
    loses no interleaving. *)
Inductive InitialEvent :=
| ProjectLoaded (searchParams : SearchParams)       (* loadProjectInfo path *)
| StatusBecameActive (searchParams : SearchParams)  (* WebSocket status path *)
| TimerFires (seen_sent : bool) (requestId : jsstring)
    (answer : Fetched ChatReply).

Definition timers_of (es : list Effect) : list TimerCallback :=
  omap (fun e => match e with SetTimeout cb _ => Some cb | _ => None end) es.

Definition initial_step (projectId : jsstring) (ev : InitialEvent)
  (pg : InitialPage) : InitialPage * list Effect :=
  match ev with
  | ProjectLoaded sp | StatusBecameActive sp =>
      let '(st, es) := triggerInitialPromptIfNeeded sp (ip_state pg) in
      ({| ip_state := st; ip_timers := ip_timers pg ++ timers_of es |}, es)
  | TimerFires seen requestId answer =>
      match ip_timers pg with
      | SendInitialPrompt p :: rest =>
          let '(st, es) :=
            sendInitialPrompt projectId seen p requestId answer (ip_state pg) in
          ({| ip_state := st; ip_timers := rest |}, es)
      | _ :: rest => ({| ip_state := ip_state pg; ip_timers := rest |}, [])
      | [] => (pg, [])
      end
  end.

Fixpoint initial_run (projectId : jsstring) (evs : list InitialEvent)
  (pg : InitialPage) : InitialPage * list Effect :=
  match evs with
  | [] => (pg, [])
  | ev :: evs' =>
      let '(pg1, es1) := initial_step projectId ev pg in
      let '(pg2, es2) := initial_run projectId evs' pg1 in
      (pg2, es1 ++ es2)
  end.

(** The page when it is mounted. *)
Definition initial_page (sid : jsstring) : InitialPage :=
  {| ip_state :=
       {| initialPromptSentRef := false; initialPromptSent := false;
          ip_isRunning := false; ip_agentWorkComplete := false;
          ip_sessionId := sid; ip_prompt := [] |};
     ip_timers := [] |}.

Definition is_initial_post (e : Effect) : bool :=
  match e with
  | HttpPost (ApiChat _) (Some b) => is_initial_prompt b
  | _ => false
  end.

(** *** Vocabulary and sample values for the properties *)

Definition demo_run_state (m : Mode) : RunState :=
  {| prompt := []; mode := m; isRunning := false; uploadedImages := [];
     sessionId := []; preferredCli := lit "claude"; selectedModel := [] |}.

Definition demo_upload : ChatInput.UploadedFile :=
  {| ChatInput.uf_id := lit "f1"; ChatInput.filename := lit "chart.png";
     ChatInput.path := lit "/data/uploads/chart.png";
     ChatInput.url := lit "/uploads/chart.png";
     ChatInput.file_type := lit "image" |}.

(** What a processed image keeps of the object it was made from. *)
Definition carries (img : ImageObj) (pi : ProcessedImage) : Prop :=
  match pi with
  | PathImage p _ => img_path img = Some p
  | Base64Image _ _ _ => truthy_opt (img_base64 img) = true
  | RawImage i => i = img
  end.

(** The suffix that the page appends in chat mode. *)
Definition mode_suffix (m : Mode) : jsstring :=
  match m with chat => chat_mode_suffix | act => [] end.

Definition net_up : Net :=
  {| preview_start := Response true (Some (lit "http://localhost:3000"));
     preview_stop := Response true () |}.

Definition net_down : Net :=
  {| preview_start := NetworkError; preview_stop := NetworkError |}.

Definition preview_state (u : option jsstring) (interrupted prev : bool)
  : PreviewState :=
  {| previewUrl := u; recordInterruptState := interrupted;
     isStartingPreview := false;
     previewInitializationMessage := MsgStartingServer;
     currentRoute := []; previousActiveState := prev;
     hasInitialPrompt := false; agentWorkComplete := false;
     pv_isRunning := false |}.

(** The two branches of the effect, as the source tests them. *)
Definition stop_branch (hasActiveRequests : bool) (st : PreviewState) : bool :=
  hasActiveRequests && truthy_opt (previewUrl st).

Definition start_branch (hasActiveRequests : bool) (st : PreviewState) : bool :=
  previousActiveState st && negb hasActiveRequests
  && negb (truthy_opt (previewUrl st)).

Definition initial_posts (es : list Effect) : nat :=
  length (List.filter is_initial_post es).

(** What may still be sent: one send per pending timer, and one more as
    long as the ref guard is open. *)
Definition budget (pg : InitialPage) : nat :=
  (length (ip_timers pg)
   + if initialPromptSentRef (ip_state pg) then 0 else 1)%nat.

Definition with_prompt : SearchParams :=
  {| initial_prompt := Some (lit "Build a dashboard");
     cli := Some (lit "claude"); model := None |}.

Definition reply_ok : Fetched ChatReply :=
  Response true {| reply_text := []; reply_session_id := Some (lit "s1") |}.

(** *** The file tree and the dashboard routes *)

(** [toggleFolder(path)]: the updater of [expandedFolders]. *)
Definition toggleFolder (path : jsstring) (prev : gset jsstring)
  : gset jsstring :=
  if decide (path ∈ prev) then prev ∖ {[path]} else prev ∪ {[path]}.

(** The updater of [expandedFolders] in [logClickFile]. *)
Definition expandAssets (prev : gset jsstring) : gset jsstring :=
  prev ∪ {[lit "assets"]}.

Record Entry := {
  e_path : jsstring;
  e_type : jsstring;
  e_size : option N;
}.

(** What [loadSubdirectory('dashboard')] stores in [dashboardDirData]:
    every entry with its path cut to the file name. *)
Definition dashboardEntries (data : list Entry) : list Entry :=
  List.map (fun d => {| e_path := Utils.getFileNameFromPath (e_path d);
                        e_type := e_type d; e_size := e_size d |}) data.

(** [getAvailableRoutes()]; [None] is a [dashboardDirData] that is null or
    undefined. *)
Definition getAvailableRoutes (dashboardDirData : option (list Entry))
  : list jsstring :=
  match dashboardDirData with
  | None => []
  | Some data =>
      if Nat.eqb (length data) 0 then []
      else List.map (fun entry => Utils.getFileNameFromPath (e_path entry)) data
  end.

(** *** Loading the CLI and model settings *)











(** *** Session status callbacks over renders, and the timers of [start] *)

(** The page as the callback meets it: the state that the last render saw
    (the closure of the callback that ChatLog holds) and the current
    state. *)
Record RenderedPage := {
  seen_state : PreviewState;
  current_state : PreviewState;
}.

(** What happens to that page: it renders again, so that the callback made
    from then on sees the current state; ChatLog calls the callback of the
    last render; a timer set by [start] fires. *)
Inductive StatusEvent :=
| Rerender
| SessionStatus (isRunningValue : bool) (net : Net)
| PreviewTimer (cb : TimerCallback).

Definition status_step (projectId : jsstring) (ev : StatusEvent)
  (pg : RenderedPage) : RenderedPage * list Effect :=
  match ev with
  | Rerender =>
      ({| seen_state := current_state pg; current_state := current_state pg |},
       [])
  | SessionStatus isRunningValue net =>
      let '(st, es) :=
        onSessionStatusChange projectId (seen_state pg) isRunningValue net
          (current_state pg) in
      ({| seen_state := seen_state pg; current_state := st |}, es)
  | PreviewTimer cb =>
      ({| seen_state := seen_state pg;
          current_state := run_preview_timer cb (current_state pg) |}, [])
  end.

Fixpoint status_run (projectId : jsstring) (evs : list StatusEvent)
  (pg : RenderedPage) : RenderedPage * list Effect :=
  match evs with
  | [] => (pg, [])
  | ev :: evs' =>
      let '(pg1, es1) := status_step projectId ev pg in
      let '(pg2, es2) := status_run projectId evs' pg1 in
      (pg2, es1 ++ es2)
  end.

(** The calls with [isRunningValue] false at the head of [evs], before the
    page renders again. *)
Fixpoint idle_calls_before_render (evs : list StatusEvent) : nat :=
  match evs with
  | SessionStatus v _ :: rest =>
      ((if v then 0 else 1) + idle_calls_before_render rest)%nat
  | PreviewTimer _ :: rest => idle_calls_before_render rest
  | Rerender :: _ | [] => 0%nat
  end.

(** The largest number of such calls that reach one render. *)
Fixpoint most_idle_calls_per_render (evs : list StatusEvent) : nat :=
  match evs with
  | [] => 0%nat
  | _ :: rest =>
      Nat.max (idle_calls_before_render evs) (most_idle_calls_per_render rest)
  end.

(** The timers scheduled in a trace, fired in order. *)
Definition fire_timers (es : list Effect) (st : PreviewState) : PreviewState :=
  fold_left (fun s cb => run_preview_timer cb s) (timers_of es) st.

(** The page right after a render. *)
Definition rendered (st : PreviewState) : RenderedPage :=
  {| seen_state := st; current_state := st |}.

(** A page whose initial prompt is being worked on: no preview yet, the
    work not marked complete. *)
Definition first_task_page : PreviewState :=
  {| previewUrl := None; recordInterruptState := false;
     isStartingPreview := false;
     previewInitializationMessage := MsgStartingServer;
     currentRoute := []; previousActiveState := true;
     hasInitialPrompt := true; agentWorkComplete := false;
     pv_isRunning := true |}.

Definition is_storage_set (e : Effect) : bool :=
  match e with LocalStorageSet _ _ => true | _ => false end.

Definition any_endpoint (t : Endpoint) : bool := true.

(** The text of a data URL with the given media type and payload. *)
Definition data_url (mime payload : jsstring) : jsstring :=
  lit "data:" ++ mime ++ lit ";base64," ++ payload.

End ChatPage.

(** ** useUserRequests hook (hooks/useUserRequests.ts) *)

Module UserRequests.

Record ActiveRequestsResponse := {
  r_hasActiveRequests : bool;
  r_activeCount : N;
}.

(** [intervalRef] holds the running interval timer, identified here by its
    period in milliseconds. *)
Record State := {
  hasActiveRequests : bool;
  activeCount : N;
  isTabVisible : bool;
  intervalRef : option N;
  previousActiveState : bool;
}.

Inductive Effect :=
| HttpGetActive              (* GET /api/chat/<project>/requests/active *)
| SetInterval (ms : N)       (* setInterval(checkActiveRequests, ms) *)
| ClearInterval (ms : N).

Definition set_intervalRef (v : option N) (st : State) : State :=
  {| hasActiveRequests := hasActiveRequests st; activeCount := activeCount st;
     isTabVisible := isTabVisible st; intervalRef := v;
     previousActiveState := previousActiveState st |}.

(** [checkActiveRequests()] *)
Definition checkActiveRequests (answer : Fetched ActiveRequestsResponse)
  (st : State) : State * list Effect :=
  if negb (isTabVisible st) then (st, [])
  else
    match answer with
    | Response true data =>
        ({| hasActiveRequests := r_hasActiveRequests data;
            activeCount := r_activeCount data;
            isTabVisible := isTabVisible st;
            intervalRef := intervalRef st;
            previousActiveState := r_hasActiveRequests data |},
         [HttpGetActive])
    | _ => (st, [HttpGetActive])
    end.

Definition pollInterval (hasActiveRequests : bool) : N :=
  if hasActiveRequests then 500 else 5000.

Definition clear_current (st : State) : list Effect :=
  match intervalRef st with
  | Some h => [ClearInterval h]
  | None => []
  end.

(** The polling effect, run when [hasActiveRequests] or [isTabVisible]
    changed; [answer] is what the immediate check comes back with. *)
Definition pollingEffect (answer : Fetched ActiveRequestsResponse)
  (st : State) : State * list Effect :=
  if negb (isTabVisible st) then
    (set_intervalRef None st, clear_current st)
  else
    let pollInterval := pollInterval (hasActiveRequests st) in
    let '(st1, e) := checkActiveRequests answer st in
    (set_intervalRef (Some pollInterval) st1,
     clear_current st ++ e ++ [SetInterval pollInterval]).

(** *** Sample values for the properties *)

Definition idle_visible : State :=
  {| hasActiveRequests := false; activeCount := 0; isTabVisible := true;
     intervalRef := None; previousActiveState := false |}.

Definition idle_answer : Fetched ActiveRequestsResponse :=
  Response true {| r_hasActiveRequests := false; r_activeCount := 0 |}.

Definition active_answer : Fetched ActiveRequestsResponse :=
  Response true {| r_hasActiveRequests := true; r_activeCount := 1 |}.

(** *** The timers of the hook *)

(** The cleanup returned by the polling effect. *)
Definition pollingCleanup (st : State) : State * list Effect :=
  (st, clear_current st).

Definition setIsTabVisible (b : bool) (st : State) : State :=
  {| hasActiveRequests := hasActiveRequests st; activeCount := activeCount st;
     isTabVisible := b; intervalRef := intervalRef st;
     previousActiveState := previousActiveState st |}.

(** What happens to the mounted hook. *)
Inductive HookEvent :=
| VisibilityChange (visible : bool)
| EffectRuns (answer : Fetched ActiveRequestsResponse)
| CleanupRuns
| IntervalFires (answer : Fetched ActiveRequestsResponse).

Fixpoint remove_first (h : N) (live : list N) : list N :=
  match live with
  | [] => []
  | x :: rest => if N.eqb x h then rest else x :: remove_first h rest
  end.

(** The interval timers that are running, as the browser keeps them. *)
Definition track_timers (es : list Effect) (live : list N) : list N :=
  fold_left (fun l e => match e with
                        | SetInterval ms => ms :: l
                        | ClearInterval ms => remove_first ms l
                        | HttpGetActive => l
                        end) es live.

Definition hook_step (ev : HookEvent) (s : State * list N) : State * list N :=
  match ev with
  | VisibilityChange b => (setIsTabVisible b (fst s), snd s)
  | EffectRuns answer =>
      let '(st, es) := pollingEffect answer (fst s) in
      (st, track_timers es (snd s))
  | CleanupRuns =>
      let '(st, es) := pollingCleanup (fst s) in
      (st, track_timers es (snd s))
  | IntervalFires answer =>
      match snd s with
      | [] => s
      | _ :: _ => (fst (checkActiveRequests answer (fst s)), snd s)
      end
  end.

Definition hook_run (evs : list HookEvent) (s : State * list N)
  : State * list N :=
  fold_left (fun acc ev => hook_step ev acc) evs s.

Definition mounted : State * list N :=
  ({| hasActiveRequests := false; activeCount := 0; isTabVisible := true;
      intervalRef := None; previousActiveState := false |}, []).

(** The hook from mount until the end of the requests has been answered:
    the effect runs at mount and learns of active requests, runs again for
    the changed status and learns that they have ended. *)
Definition requests_end : list HookEvent :=
  [EffectRuns active_answer; EffectRuns idle_answer].

(** No timer runs, or the one in [intervalRef] runs; its period is one of
    the two polling periods. *)
Definition one_timer (s : State * list N) : Prop :=
  snd s = []
  \/ exists p, snd s = [p] /\ intervalRef (fst s) = Some p
               /\ (p = 500 \/ p = 5000).

End UserRequests.

(** ** Session orchestrator and preview supervisor (server side) *)

Module Orchestrator.

(** Modelled from the spec: the Python server that owns sessions and preview
    processes is not among the sources, so its state table and operations
    follow sections 3, 4.2, 4.5 and 5 of the specification.  Projects,
    sessions and backends are opaque ids. *)
Inductive SessionStatus := pending | running | completed | failed | cancelled.

(** Modelled from the spec: the Session record of section 3. *)
Record Session := {
  session_id : N;
  backend : N;
  request_id : jsstring;
  status : SessionStatus;
  last_error : option jsstring;
}.

(** Modelled from the spec: the status of a PreviewProcess (section 3);
    [serving] is the spec's "running" and [broken] its "error". *)
Inductive PreviewStatus := stopped | starting | serving | broken.

(** Modelled from the spec: one development-server child process: the
    project it serves, its allocated port and its status. *)
Record PreviewProcess := {
  owner : N;
  port : N;
  preview_status : PreviewStatus;
}.

(** Modelled from the spec: the per-project entry of the state table of
    section 9: the "is a session running" flag of section 5, the session
    records, and the dependency fingerprint of the last successful
    install. *)
Record Project := {
  session_running : bool;
  sessions : list Session;
  fingerprint : option N;
}.

(** Modelled from the spec: the state table, the table of the preview
    processes that exist (over all projects, as the ports are allocated
    from one global set) and the configured port range. *)
Record System := {
  projects : gmap N Project;
  processes : list PreviewProcess;
  port_range : list N;
}.

(** Modelled from the spec: the error taxonomy of section 7. *)
Inductive Error :=
| AdapterUnavailable
| AdapterStreamError
| ConcurrencyConflict
| PreviewInstallFailure
| PreviewPortExhausted.

(** Modelled from the spec: a project that was never touched (no session,
    nothing installed). *)
Definition empty_project : Project :=
  {| session_running := false; sessions := []; fingerprint := None |}.

(** Modelled from the spec: reading the state table. *)
Definition project_of (sys : System) (p : N) : Project :=
  default empty_project (projects sys !! p).

(** Modelled from the spec: writing the state table. *)
Definition put_project (p : N) (pr : Project) (sys : System) : System :=
  {| projects := <[p := pr]> (projects sys); processes := processes sys;
     port_range := port_range sys |}.

(** Modelled from the spec: status [running] of a Session. *)
Definition is_running (s : Session) : bool :=
  match status s with running => true | _ => false end.

(** Modelled from the spec: status [running] of a PreviewProcess. *)
Definition is_serving (pp : PreviewProcess) : bool :=
  match preview_status pp with serving => true | _ => false end.

(** Modelled from the spec: the preview processes of a project. *)
Definition previews_of (sys : System) (p : N) : list PreviewProcess :=
  List.filter (fun pp => N.eqb (owner pp) p) (processes sys).

(** Modelled from the spec: the number of running Sessions of a project,
    as the invariant of section 3 counts them. *)
Definition running_sessions (sys : System) (p : N) : nat :=
  length (List.filter is_running (sessions (project_of sys p))).

(** Modelled from the spec: the number of running PreviewProcesses of a
    project. *)
Definition running_previews (sys : System) (p : N) : nat :=
  length (List.filter is_serving (previews_of sys p)).

(** Modelled from the spec: the ports held by some preview process, over
    all projects (the global set of section 5). *)
Definition ports_in_use (sys : System) : list N :=
  List.map port (processes sys).

(** Modelled from the spec: "allocates the lowest free port in a configured
    range". *)
Definition allocate_port (sys : System) : option N :=
  List.find (fun q => negb (existsb (N.eqb q) (ports_in_use sys)))
    (port_range sys).

(** Modelled from the spec: a Session is mutated only while it is running
    and is terminal once its status has left [running]. *)
Definition set_status (sid : N) (st : SessionStatus) (err : option jsstring)
  (s : Session) : Session :=
  if N.eqb (session_id s) sid && is_running s
  then {| session_id := session_id s; backend := backend s;
          request_id := request_id s; status := st; last_error := err |}
  else s.

(** Modelled from the spec: [stop(projectId)] terminates the project's
    process and releases its port; a process is destroyed when stopped. *)
Definition stop_preview (p : N) (sys : System) : System :=
  {| projects := projects sys;
     processes :=
       List.filter (fun pp => negb (N.eqb (owner pp) p)) (processes sys);
     port_range := port_range sys |}.

(** Modelled from the spec: [start(projectId)]: the lowest free port, an
    install step when the fingerprint differs from the recorded one, then
    the server process, and the new fingerprint recorded.  [manifest] is the
    hash of the dependency manifest, [install_ok] the outcome of the install
    step when one runs.  Without a free port nothing changes; after a failed
    install the preview is marked as in error.  A PreviewProcess is created
    whenever the supervisor starts a preview (section 3), and section 4.5
    words no check for a process that the project already has. *)
Definition start_preview (p manifest : N) (install_ok : bool) (sys : System)
  : System * option Error :=
  let pr := project_of sys p in
  match allocate_port sys with
  | None => (sys, Some PreviewPortExhausted)
  | Some q =>
      let cached :=
        match fingerprint pr with
        | Some f => N.eqb f manifest
        | None => false
        end in
      if cached || install_ok then
        ({| projects :=
              <[p := {| session_running := session_running pr;
                        sessions := sessions pr;
                        fingerprint := Some manifest |}]> (projects sys);
            processes :=
              processes sys
              ++ [{| owner := p; port := q; preview_status := serving |}];
            port_range := port_range sys |}, None)
      else
        ({| projects := projects sys;
            processes :=
              processes sys
              ++ [{| owner := p; port := q; preview_status := broken |}];
            port_range := port_range sys |}, Some PreviewInstallFailure)
  end.

(** Modelled from the spec: [execute]: rejected, not queued, when the
    project's flag is set (check-and-set); otherwise the project's running
    preview, if any, is stopped first and a session is created and set
    running. *)
Definition execute (p sid bk : N) (rid : jsstring) (available : bool)
  (sys : System) : System + Error :=
  let pr := project_of sys p in
  if session_running pr then inr ConcurrencyConflict
  else if negb available then inr AdapterUnavailable
  else
    let sys1 :=
      if existsb is_serving (previews_of sys p) then stop_preview p sys
      else sys in
    inl (put_project p
           {| session_running := true;
              sessions := sessions pr ++
                [{| session_id := sid; backend := bk; request_id := rid;
                    status := running; last_error := None |}];
              fingerprint := fingerprint pr |} sys1).

(** Modelled from the spec: a running session leaves [running] (stream
    completion, adapter failure, interrupt); a session that is not running
    is left as it is; then, when no preview process exists yet for the
    project, one is started. *)
Definition finish (p sid : N) (st : SessionStatus) (err : option jsstring)
  (manifest : N) (install_ok : bool) (sys : System) : System :=
  let pr := project_of sys p in
  if existsb (fun s => N.eqb (session_id s) sid && is_running s) (sessions pr)
  then
    let sys1 :=
      put_project p
        {| session_running := false;
           sessions := List.map (set_status sid st err) (sessions pr);
           fingerprint := fingerprint pr |} sys in
    match previews_of sys1 p with
    | [] => fst (start_preview p manifest install_ok sys1)
    | _ :: _ => sys1
    end
  else sys.

(** Modelled from the spec: how a session ends (stream completion, adapter
    failure, interrupt or timeout). *)
Inductive Outcome := Completed | Failed (err : jsstring) | Interrupted.

(** Modelled from the spec: the terminal status and error text of each
    ending. *)
Definition status_of (o : Outcome) : SessionStatus * option jsstring :=
  match o with
  | Completed => (completed, None)
  | Failed e => (failed, Some e)
  | Interrupted => (cancelled, None)
  end.

(** Modelled from the spec: the requests of section 6 and the process
    exit the supervisor reacts to. *)
Inductive Event :=
| StartSession (p sid bk : N) (rid : jsstring) (available : bool)
| SessionEnds (p sid : N) (o : Outcome) (manifest : N) (install_ok : bool)
| StartPreview (p manifest : N) (install_ok : bool)
| StopPreview (p : N)
| PreviewExits (p : N).

(** Modelled from the spec: one request served; a rejected request leaves
    the state untouched. *)
Definition step (sys : System) (ev : Event) : System :=
  match ev with
  | StartSession p sid bk rid available =>
      match execute p sid bk rid available sys with
      | inl sys' => sys'
      | inr _ => sys
      end
  | SessionEnds p sid o manifest install_ok =>
      finish p sid (fst (status_of o)) (snd (status_of o)) manifest install_ok sys
  | StartPreview p manifest install_ok =>
      fst (start_preview p manifest install_ok sys)
  | StopPreview p | PreviewExits p => stop_preview p sys
  end.

(** Modelled from the spec: the server serving requests one after the
    other. *)
Definition run (evs : list Event) (sys : System) : System :=
  fold_left step evs sys.

(** Modelled from the spec: the server at start, with no project known and
    no process. *)
Definition boot (range : list N) : System :=
  {| projects := ∅; processes := []; port_range := range |}.

(** Modelled from the spec: a sequence of requests in which every
    StartPreview reaches the supervisor for a project that has no preview
    process yet, the condition under which the coupling rule of section 5
    starts one. *)
Fixpoint starts_guarded (evs : list Event) (sys : System) : bool :=
  match evs with
  | [] => true
  | ev :: rest =>
      match ev with
      | StartPreview p _ _ => Nat.eqb (length (previews_of sys p)) 0
      | _ => true
      end && starts_guarded rest (step sys ev)
  end.

(** *** Vocabulary for the properties *)




End Orchestrator.

(** * Properties *)

(** ** Strings *)

Section JsFacts.

Lemma str_eqb_eq (a b : jsstring) : str_eqb a b = true <-> a = b.
Proof.
  revert b. induction a as [|x a IH]; intros [|y b]; simpl; split;
    try congruence; try discriminate.
  - intros H. apply andb_true_iff in H as [Hx Hr].
    apply N.eqb_eq in Hx. apply IH in Hr. congruence.
  - intros H. injection H as -> ->.
    rewrite N.eqb_refl. simpl. apply IH. reflexivity.
Qed.

Lemma str_eqb_refl (a : jsstring) : str_eqb a a = true.
Proof. apply str_eqb_eq. reflexivity. Qed.

Lemma strip_prefix_app (p s r : jsstring) :
  strip_prefix p s = Some r -> s = p ++ r.
Proof.
  revert s. induction p as [|x p IH]; intros s H; simpl in *.
  - congruence.
  - destruct s as [|y s]; [discriminate|].
    destruct (N.eqb_spec x y) as [->|]; [|discriminate].
    f_equal. apply IH. exact H.
Qed.

(** A string is a run of blanks followed by what [trimStart] keeps. *)
Lemma trimStart_blanks (s : jsstring) :
  exists w, s = w ++ trimStart s /\ Forall (fun c => is_ws c = true) w.
Proof.
  induction s as [|c s (w & Hs & Hw)]; simpl.
  - exists []. split; [reflexivity | constructor].
  - destruct (is_ws c) eqn:Hc.
    + exists (c :: w). split; [simpl; congruence | constructor; assumption].
    + exists []. split; [reflexivity | constructor].
Qed.

Lemma trimStart_nil_blanks (s : jsstring) :
  trimStart s = [] -> Forall (fun c => is_ws c = true) s.
Proof.
  intros H. destruct (trimStart_blanks s) as (w & Hs & Hw).
  rewrite H, app_nil_r in Hs. subst w. exact Hw.
Qed.

Lemma truthy_trim (s : jsstring) : truthy (trim s) = true -> truthy s = true.
Proof. destruct s; [discriminate | reflexivity]. Qed.

Lemma truthy_false_nil (s : jsstring) : truthy s = false -> s = [].
Proof. destruct s; [reflexivity | discriminate]. Qed.

End JsFacts.

(** ** Splitting, joining and trimming *)

Section MoreJsFacts.

Lemma split_not_nil (sep : N) (s : jsstring) : split sep s <> [].
Proof.
  induction s as [|c s IH]; simpl; [discriminate|].
  destruct (N.eqb c sep); [discriminate|].
  destruct (split sep s); [contradiction | discriminate].
Qed.

Lemma join_split (sep : N) (s : jsstring) : join sep (split sep s) = s.
Proof.
  induction s as [|c s IH]; simpl; [reflexivity|].
  destruct (N.eqb_spec c sep) as [->|Hne].
  - pose proof (split_not_nil sep s) as Hn.
    destruct (split sep s) as [|h t]; [contradiction|].
    simpl. f_equal. exact IH.
  - pose proof (split_not_nil sep s) as Hn.
    destruct (split sep s) as [|h t]; [contradiction|].
    simpl in *. destruct t; simpl in *; congruence.
Qed.

Lemma length_split (sep : N) (s : jsstring) :
  length (split sep s) = S (length (List.filter (N.eqb sep) s)).
Proof.
  induction s as [|c s IH]; simpl; [reflexivity|].
  rewrite (N.eqb_sym sep c).
  pose proof (split_not_nil sep s) as Hn.
  destruct (N.eqb c sep); simpl; [congruence|].
  destruct (split sep s) as [|h t]; [contradiction|]. simpl in *. exact IH.
Qed.

Lemma split_pieces_free (sep : N) (s : jsstring) :
  Forall (fun piece => sep ∉ piece) (split sep s).
Proof.
  induction s as [|c s IH]; simpl.
  - constructor; [apply not_elem_of_nil | constructor].
  - destruct (N.eqb_spec c sep) as [->|Hne].
    + constructor; [apply not_elem_of_nil | exact IH].
    + pose proof (split_not_nil sep s) as Hn.
      destruct (split sep s) as [|h t]; [contradiction|].
      inversion IH as [|? ? Hh Ht]; subst.
      constructor; [|exact Ht].
      intros Hin. apply elem_of_cons in Hin as [Heq|Hin]; [congruence | auto].
Qed.

(** A split is one piece without separator, or it ends in the piece that
    follows the last separator. *)
Lemma split_shape (sep : N) (s : jsstring) :
  (exists name, split sep s = [name] /\ s = name /\ (sep ∉ name))
  \/ (exists d name h t,
        split sep s = h :: t /\ t <> [] /\ last t = Some name
        /\ s = d ++ sep :: name /\ (sep ∉ name)).
Proof.
  induction s as [|c s IH]; simpl.
  - left. exists []. repeat split. apply not_elem_of_nil.
  - destruct (N.eqb_spec c sep) as [->|Hne].
    + right. destruct IH as [(name & -> & -> & Hf) | (d & name & h & t & -> & Ht & Hl & -> & Hf)].
      * exists [], name, [], [name]. repeat split; auto; discriminate.
      * exists (sep :: d), name, [], (h :: t).
        split; [reflexivity|]. split; [discriminate|]. split; [|auto].
        destruct t; [contradiction | exact Hl].
    + destruct IH as [(name & -> & -> & Hf) | (d & name & h & t & -> & Ht & Hl & -> & Hf)].
      * left. exists (c :: name). repeat split.
        intros Hin. apply elem_of_cons in Hin as [Heq|Hin]; [congruence | auto].
      * right. exists (c :: d), name, (c :: h), t. repeat split; auto.
Qed.

Lemma split_last (sep : N) (s : jsstring) :
  exists dir name,
    last (split sep s) = Some name /\ s = dir ++ name /\ (sep ∉ name)
    /\ (dir = [] \/ exists d, dir = d ++ [sep]).
Proof.
  destruct (split_shape sep s)
    as [(name & -> & -> & Hf) | (d & name & h & t & -> & Ht & Hl & -> & Hf)].
  - exists [], name. repeat split; auto.
  - exists (d ++ [sep]), name. split.
    + destruct t; [contradiction | exact Hl].
    + rewrite <- app_assoc. repeat split; auto. right. exists d. reflexivity.
Qed.

Lemma trimStart_app_keep (a : jsstring) (c : N) :
  is_ws c = false -> trimStart (a ++ [c]) = trimStart a ++ [c].
Proof.
  intros Hc. induction a as [|x a IH]; simpl.
  - rewrite Hc. reflexivity.
  - destruct (is_ws x); [exact IH | reflexivity].
Qed.

Lemma trimStart_head (s : jsstring) :
  trimStart s = [] \/ exists c r, trimStart s = c :: r /\ is_ws c = false.
Proof.
  induction s as [|x s IH]; simpl; [left; reflexivity|].
  destruct (is_ws x) eqn:Hx; [exact IH|]. right. exists x, s. auto.
Qed.

Lemma trimStart_fixed (c : N) (r : jsstring) :
  is_ws c = false -> trimStart (c :: r) = c :: r.
Proof. intros H. simpl. rewrite H. reflexivity. Qed.

Lemma trimStart_idem (s : jsstring) : trimStart (trimStart s) = trimStart s.
Proof.
  destruct (trimStart_head s) as [-> | (c & r & -> & Hc)]; [reflexivity|].
  apply trimStart_fixed, Hc.
Qed.

(** What [trim] returns is empty or has a unit that is not blank at both
    ends. *)
Lemma trim_shape (s : jsstring) :
  trim s = []
  \/ exists c r, trim s = c :: r /\ is_ws c = false
                 /\ exists d q, rev (trim s) = d :: q /\ is_ws d = false.
Proof.
  unfold trim, trimEnd.
  destruct (trimStart_head s) as [-> | (c & r & -> & Hc)]; [left; reflexivity|].
  right.
  assert (E : trimStart (rev (c :: r)) = trimStart (rev r) ++ [c])
    by (simpl; apply trimStart_app_keep, Hc).
  rewrite E, rev_involutive, rev_app_distr. simpl.
  exists c, (rev (trimStart (rev r))).
  split; [reflexivity|]. split; [exact Hc|].
  destruct (trimStart_head (rev r)) as [-> | (d & q & -> & Hd)].
  - exists c, []. split; [reflexivity | exact Hc].
  - exists d, (q ++ [c]). split; [reflexivity | exact Hd].
Qed.

Lemma trim_idem (s : jsstring) : trim (trim s) = trim s.
Proof.
  destruct (trim_shape s) as [-> | (c & r & Ht & Hc & d & q & Hr & Hd)];
    [reflexivity|].
  rewrite Ht in *. unfold trim at 1, trimEnd.
  rewrite trimStart_fixed by assumption.
  rewrite Hr, trimStart_fixed by assumption.
  rewrite <- Hr. apply rev_involutive.
Qed.

(** [trim] leaves something exactly when some unit is not blank. *)
Lemma truthy_trim_exists (s : jsstring) :
  truthy (trim s) = existsb (fun c => negb (is_ws c)) s.
Proof.
  unfold trim, trimEnd. induction s as [|x s IH]; [reflexivity|].
  simpl trimStart. simpl existsb.
  destruct (is_ws x) eqn:Hx; simpl negb; [exact IH|].
  simpl orb. simpl rev. rewrite trimStart_app_keep by assumption.
  rewrite rev_app_distr. reflexivity.
Qed.

Lemma truthy_trim_app_l (a b : jsstring) :
  truthy (trim a) = true -> truthy (trim (a ++ b)) = true.
Proof.
  rewrite !truthy_trim_exists, existsb_app. intros ->. reflexivity.
Qed.

End MoreJsFacts.

(** ** Regular expressions *)

Section RegexFacts.

(** A repetition fails when its continuation fails behind every match of
    its body. *)
Lemma rep_loop_none (ma : Matcher) :
  (forall s cap k,
      (forall s1 cap1, s1 `suffix_of` s -> k s1 cap1 = None) ->
      ma s cap k = None) ->
  forall k fuel min s cap,
    (forall s1 cap1, s1 `suffix_of` s -> k s1 cap1 = None) ->
    rep_loop ma k fuel min s cap = None.
Proof.
  intros Hma k fuel.
  induction fuel as [|fuel IH]; intros min s cap Hk; simpl; [reflexivity|].
  destruct min as [|min].
  - rewrite Hma.
    + apply Hk. reflexivity.
    + intros s1 cap1 Hs1. destruct (length s1 <? length s)%nat; [|reflexivity].
      apply IH. intros s2 cap2 Hs2. apply Hk. etransitivity; eassumption.
  - apply Hma. intros s1 cap1 Hs1. apply IH.
    intros s2 cap2 Hs2. apply Hk. etransitivity; eassumption.
Qed.

(** A pattern does not match when its continuation fails on every end of
    the input. *)
Lemma rmatch_none (r : Re) (s : jsstring) (cap : option jsstring)
  (k : jsstring -> option jsstring -> option MatchEnd) :
  (forall s1 cap1, s1 `suffix_of` s -> k s1 cap1 = None) ->
  rmatch r s cap k = None.
Proof.
  revert s cap k.
  induction r as [p | l | a IHa b IHb | min a IHa | a IHa];
    intros s cap k Hk; cbn [rmatch].
  - destruct s as [|c s']; [reflexivity|].
    destruct (p c); [|reflexivity]. apply Hk, suffix_cons_r. reflexivity.
  - destruct (strip_prefix l s) as [s'|] eqn:E; [|reflexivity].
    apply strip_prefix_app in E. subst s. apply Hk, suffix_app_r. reflexivity.
  - apply IHa. intros s1 cap1 Hs1. apply IHb.
    intros s2 cap2 Hs2. apply Hk. etransitivity; eassumption.
  - apply rep_loop_none; [|exact Hk].
    intros s0 cap0 k0 Hk0. apply IHa. exact Hk0.
  - apply IHa. intros s1 cap1 Hs1. apply Hk. exact Hs1.
Qed.

(** A matcher looks at its continuation only on ends of its input. *)
Lemma rep_loop_ext (ma : Matcher) :
  (forall s cap k k',
      (forall s1 cap1, s1 `suffix_of` s -> k s1 cap1 = k' s1 cap1) ->
      ma s cap k = ma s cap k') ->
  forall fuel min s cap k k',
    (forall s1 cap1, s1 `suffix_of` s -> k s1 cap1 = k' s1 cap1) ->
    rep_loop ma k fuel min s cap = rep_loop ma k' fuel min s cap.
Proof.
  intros Hma fuel.
  induction fuel as [|fuel IH]; intros min s cap k k' Hk; simpl; [reflexivity|].
  destruct min as [|min].
  - rewrite (Hk s cap) by reflexivity.
    rewrite (Hma s cap
               (fun s1 cap1 => if (length s1 <? length s)%nat
                               then rep_loop ma k fuel 0 s1 cap1 else None)
               (fun s1 cap1 => if (length s1 <? length s)%nat
                               then rep_loop ma k' fuel 0 s1 cap1 else None));
      [reflexivity|].
    intros s1 cap1 Hs1. destruct (length s1 <? length s)%nat; [|reflexivity].
    apply IH. intros s2 cap2 Hs2. apply Hk. etransitivity; eassumption.
  - apply Hma. intros s1 cap1 Hs1. apply IH.
    intros s2 cap2 Hs2. apply Hk. etransitivity; eassumption.
Qed.

Lemma rmatch_ext (r : Re) (s : jsstring) (cap : option jsstring)
  (k k' : jsstring -> option jsstring -> option MatchEnd) :
  (forall s1 cap1, s1 `suffix_of` s -> k s1 cap1 = k' s1 cap1) ->
  rmatch r s cap k = rmatch r s cap k'.
Proof.
  revert s cap k k'.
  induction r as [p | l | a IHa b IHb | min a IHa | a IHa];
    intros s cap k k' Hk; cbn [rmatch].
  - destruct s as [|c s']; [reflexivity|].
    destruct (p c); [|reflexivity]. apply Hk, suffix_cons_r. reflexivity.
  - destruct (strip_prefix l s) as [s'|] eqn:E; [|reflexivity].
    apply strip_prefix_app in E. subst s. apply Hk, suffix_app_r. reflexivity.
  - apply IHa. intros s1 cap1 Hs1. apply IHb.
    intros s2 cap2 Hs2. apply Hk. etransitivity; eassumption.
  - apply rep_loop_ext; [|exact Hk].
    intros s0 cap0 k0 k0' Hk0. apply IHa. exact Hk0.
  - apply IHa. intros s1 cap1 Hs1. apply Hk. exact Hs1.
Qed.

(** The fuel of a repetition is never used up: any fuel above the length of
    the input plus the lower bound gives the result of the matcher. *)
Lemma rep_loop_fuel (a : Re)
  (k : jsstring -> option jsstring -> option MatchEnd) (fuel1 fuel2 : nat) :
  forall min s cap,
    (length s + min < fuel1)%nat -> (length s + min < fuel2)%nat ->
    rep_loop (rmatch a) k fuel1 min s cap
    = rep_loop (rmatch a) k fuel2 min s cap.
Proof.
  revert fuel2.
  induction fuel1 as [|fuel1 IH]; intros fuel2 min s cap H1 H2; [lia|].
  destruct fuel2 as [|fuel2]; [lia|]. simpl.
  destruct min as [|min].
  - rewrite (rmatch_ext a s cap
               (fun s1 cap1 => if (length s1 <? length s)%nat
                               then rep_loop (rmatch a) k fuel1 0 s1 cap1
                               else None)
               (fun s1 cap1 => if (length s1 <? length s)%nat
                               then rep_loop (rmatch a) k fuel2 0 s1 cap1
                               else None)); [reflexivity|].
    intros s1 cap1 Hs1. simpl.
    destruct (Nat.ltb_spec (length s1) (length s)); [|reflexivity].
    apply IH; lia.
  - apply rmatch_ext. intros s1 cap1 Hs1. simpl.
    apply suffix_length in Hs1. apply IH; lia.
Qed.

Lemma rmatch_rep_fuel (min : nat) (a : Re) (s : jsstring)
  (cap : option jsstring)
  (k : jsstring -> option jsstring -> option MatchEnd) (fuel : nat) :
  (length s + min < fuel)%nat ->
  rep_loop (rmatch a) k fuel min s cap = rmatch (Rep min a) s cap k.
Proof. intros H. cbn [rmatch]. apply rep_loop_fuel; lia. Qed.

(** Where no match starts, a global replacement changes nothing. *)
Lemma replace_global_no_match (r : Re)
  (f : jsstring -> option jsstring -> jsstring) (s : jsstring) :
  (forall s1, s1 `suffix_of` s -> exec r s1 = None) ->
  replace_global r f 0 s = s.
Proof.
  induction s as [|c s IH]; intros H; simpl.
  - rewrite (H []) by reflexivity. reflexivity.
  - rewrite (H (c :: s)) by reflexivity. f_equal. apply IH.
    intros s1 Hs1. apply H, suffix_cons_r. exact Hs1.
Qed.

Lemma includes_tail (p : jsstring) (c : N) (s : jsstring) :
  includes p (c :: s) = false -> includes p s = false.
Proof. simpl. intros H. apply orb_false_iff in H as [_ H]. exact H. Qed.

Lemma includes_head (p s : jsstring) :
  includes p s = false -> startsWith p s = false.
Proof.
  destruct s; simpl; intros H; apply orb_false_iff in H as [H _]; exact H.
Qed.

Lemma includes_app_l (p a s : jsstring) :
  includes p (a ++ s) = false -> includes p s = false.
Proof.
  induction a as [|c a IH]; intros H; [exact H|].
  apply IH. exact (includes_tail p c _ H).
Qed.

Lemma startsWith_app (p s b : jsstring) :
  startsWith p s = true -> startsWith p (s ++ b) = true.
Proof.
  unfold startsWith. revert s. induction p as [|x p IH]; intros s; simpl.
  - reflexivity.
  - destruct s as [|y s]; [discriminate|]. simpl.
    destruct (N.eqb x y); [apply IH | discriminate].
Qed.

Lemma includes_app_r (p s b : jsstring) :
  includes p (s ++ b) = false -> includes p s = false.
Proof.
  induction s as [|c s IH]; intros H.
  - simpl. rewrite orb_false_r.
    destruct (startsWith p []) eqn:E; [|reflexivity].
    apply (startsWith_app p [] b) in E. apply includes_head in H. congruence.
  - simpl. apply orb_false_iff. split.
    + destruct (startsWith p (c :: s)) eqn:E; [|reflexivity].
      apply (startsWith_app p _ b) in E. apply includes_head in H. congruence.
    + apply IH. exact (includes_tail p c _ H).
Qed.

(** A string is blanks, what [trim] keeps, and blanks. *)
Lemma trim_infix (s : jsstring) : exists a b, s = a ++ trim s ++ b.
Proof.
  destruct (trimStart_blanks s) as (a & Ha & _).
  destruct (trimStart_blanks (rev (trimStart s))) as (b & Hb & _).
  exists a, (rev b). unfold trim, trimEnd.
  rewrite <- rev_app_distr, <- Hb, rev_involutive. exact Ha.
Qed.

Lemma includes_trim (p s : jsstring) :
  includes p s = false -> includes p (trim s) = false.
Proof.
  destruct (trim_infix s) as (a & b & Hs). intros H. rewrite Hs in H.
  apply includes_app_l, includes_app_r in H. exact H.
Qed.

Lemma notin_trim (c : N) (s : jsstring) : c ∉ s -> c ∉ trim s.
Proof.
  destruct (trim_infix s) as (a & b & Hs). intros H Hin. apply H.
  rewrite Hs, !elem_of_app. right. left. exact Hin.
Qed.

End RegexFacts.

(** ** The chat-mode suffix *)

Section ChatSuffix.

Import ChatLog.

(** Where the think-hard pattern matches, the input ends in "hard." and
    blanks. *)
Lemma think_hard_here_tail (s : jsstring) :
  think_hard_here s = true ->
  exists p w, s = p ++ lit "hard." ++ w /\ Forall (fun c => is_ws c = true) w.
Proof.
  unfold think_hard_here. destruct s as [|c r]; [discriminate|].
  intros H. apply andb_true_iff in H as [_ H].
  destruct (strip_prefix (lit "think") (trimStart r)) as [r2|] eqn:H1;
    [|discriminate].
  destruct r2 as [|b r2']; [discriminate|].
  apply andb_true_iff in H as [_ H].
  destruct (strip_prefix (lit "hard.") (trimStart (b :: r2'))) as [r4|] eqn:H2;
    [|discriminate].
  apply negb_true_iff, truthy_false_nil, trimStart_nil_blanks in H.
  apply strip_prefix_app in H1, H2.
  destruct (trimStart_blanks r) as (w1 & Hr & _).
  destruct (trimStart_blanks (b :: r2')) as (w2 & Hr2 & _).
  exists (c :: w1 ++ lit "think" ++ w2), r4. split; [|exact H].
  rewrite Hr, H1, Hr2, H2. simpl. rewrite <- !app_assoc. reflexivity.
Qed.

(** A text that ends with the chat-mode suffix ends in "request.", so the
    think-hard pattern matches nowhere in it. *)
Lemma think_hard_not_before_suffix (m : jsstring) :
  think_hard_here (m ++ chat_mode_suffix) = false.
Proof.
  destruct (think_hard_here (m ++ chat_mode_suffix)) eqn:E; [|reflexivity].
  exfalso. apply think_hard_here_tail in E as (p & w & Heq & Hw).
  apply (f_equal (@rev N)) in Heq.
  rewrite !rev_app_distr in Heq.
  assert (Hs : exists t, rev chat_mode_suffix = 46 :: 116 :: t)
    by (eexists; vm_compute; reflexivity).
  destruct Hs as (t & Hs). rewrite Hs in Heq.
  destruct (rev w) as [|c l] eqn:Hrw.
  - vm_compute in Heq. discriminate.
  - simpl in Heq. injection Heq as Hc _.
    assert (Hin : In c w) by (apply in_rev; rewrite Hrw; left; reflexivity).
    rewrite List.Forall_forall in Hw. apply Hw in Hin. subst c. discriminate.
Qed.

Lemma replace_think_hard_keeps (m : jsstring) :
  replace_to_end think_hard_here (m ++ chat_mode_suffix)
  = m ++ chat_mode_suffix.
Proof.
  induction m as [|c m IH].
  - vm_compute. reflexivity.
  - change (replace_to_end think_hard_here ((c :: m) ++ chat_mode_suffix))
      with (if think_hard_here ((c :: m) ++ chat_mode_suffix) then []
            else c :: replace_to_end think_hard_here (m ++ chat_mode_suffix)).
    rewrite think_hard_not_before_suffix, IH. reflexivity.
Qed.

Lemma replace_chat_suffix_strips (m : jsstring) :
  replace_to_end chat_suffix_here (m ++ chat_mode_suffix) = m.
Proof.
  induction m as [|c m IH].
  - vm_compute. reflexivity.
  - change (replace_to_end chat_suffix_here ((c :: m) ++ chat_mode_suffix))
      with (if chat_suffix_here ((c :: m) ++ chat_mode_suffix) then []
            else c :: replace_to_end chat_suffix_here (m ++ chat_mode_suffix)).
    destruct (chat_suffix_here ((c :: m) ++ chat_mode_suffix)) eqn:E.
    + apply str_eqb_eq in E. apply (f_equal (@length N)) in E.
      rewrite length_app in E. simpl in E. lia.
    + rewrite IH. reflexivity.
Qed.

Lemma cleanUserMessage_suffixed (m : jsstring) :
  cleanUserMessage (m ++ chat_mode_suffix) = trim m.
Proof.
  unfold cleanUserMessage.
  assert (Ht : truthy (m ++ chat_mode_suffix) = true) by (destruct m; reflexivity).
  rewrite Ht. simpl negb. cbv iota.
  rewrite replace_think_hard_keeps, replace_chat_suffix_strips. reflexivity.
Qed.

(** *** What is shown of a user message *)

Lemma rmatch_cat_none (a b : Re) (s : jsstring) (cap : option jsstring)
  (k : jsstring -> option jsstring -> option MatchEnd) :
  (forall s1 cap1, s1 `suffix_of` s -> rmatch b s1 cap1 k = None) ->
  rmatch (Cat a b) s cap k = None.
Proof. intros H. cbn [rmatch]. apply rmatch_none. exact H. Qed.

(** Without the text "Image #" in the message no image path is removed. *)
Lemma image_paths_absent (t : jsstring) :
  includes (lit "Image #") t = false ->
  replace_global imagePathPattern (fun _ _ => []) 0 t = t.
Proof.
  intros H. apply replace_global_no_match. intros s1 Hs1.
  unfold exec, imagePathPattern. apply rmatch_cat_none.
  intros s2 cap2 Hs2. cbn [rmatch].
  assert (Hno : startsWith (lit "Image #") s2 = false).
  { destruct Hs1 as [k1 ->]. destruct Hs2 as [k2 ->].
    apply includes_head. apply (includes_app_l _ k2), (includes_app_l _ k1).
    exact H. }
  unfold startsWith in Hno.
  destruct (strip_prefix (lit "Image #") s2); [discriminate | reflexivity].
Qed.

(** Without a slash in the text no path is shortened. *)
Lemma shortenPath_no_slash (t : jsstring) : 47 ∉ t -> shortenPath t = t.
Proof.
  intros H. unfold shortenPath. destruct (truthy t); [|reflexivity].
  simpl negb. cbv iota. apply replace_global_no_match. intros s1 Hs1.
  unfold exec, pathPattern. cbn [rmatch].
  destruct s1 as [|c s1]; [reflexivity|].
  destruct (N.eqb_spec 47 c) as [<-|]; [|reflexivity].
  exfalso. apply H. destruct Hs1 as [k1 ->].
  apply elem_of_app. right. left.
Qed.

Lemma textBlock_without_image_paths (t : jsstring) :
  includes (lit "Image #") t = false ->
  textBlock (trim t)
  = if truthy (trim t) then Some (shortenPath (trim t)) else None.
Proof.
  intros H. unfold textBlock.
  rewrite image_paths_absent by (apply includes_trim; exact H).
  rewrite trim_idem. reflexivity.
Qed.

Example shortenPath_examples :
  shortenPath (lit "open /a/b/c/d/e.txt now") = lit "open .../e.txt now"
  /\ shortenPath (lit "see /x/y/z/w.txt") = lit "see /x/y/z/w.txt"
  /\ shortenPath (lit "/a/b/c/d/e.txt/g") = lit ".../e.txt/g"
  /\ shortenPath (lit "/srv/app/src/lib/util/pack.tar.gz")
     = lit ".../pack.tar.gz"
  /\ shortenPath (lit "/a/b/c/d/Makefile") = lit "/a/b/c/d/Makefile".
Proof. vm_compute. repeat split; reflexivity. Qed.

Example image_paths_removed :
  userMessageText
    (lit "What is on this chart?" ++ [10; 10]
     ++ lit "Image #1 path: /data/uploads/chart.png" ++ [10]
     ++ lit "Image #2 path: /data/uploads/legend.png")
  = Some (lit "What is on this chart?").
Proof. vm_compute. reflexivity. Qed.

Example clean_think_hard :
  cleanUserMessage (lit "Refactor the parser. think  hard. ")
  = lit "Refactor the parser".
Proof. vm_compute. reflexivity. Qed.

Example clean_chat_suffix :
  cleanUserMessage (lit "  What does main do?" ++ chat_mode_suffix)
  = lit "What does main do?".
Proof. vm_compute. reflexivity. Qed.

Example clean_suffix_inside :
  cleanUserMessage (chat_mode_suffix ++ lit " and more")
  = trim (chat_mode_suffix ++ lit " and more").
Proof. vm_compute. reflexivity. Qed.

End ChatSuffix.

(** ** Sending an instruction *)

Section Sending.

Import ChatPage.

Lemma processImage_carries (img : ImageObj) : carries img (processImage img).
Proof.
  unfold processImage, carries.
  destruct (img_path img) as [p|] eqn:Hp; simpl;
    [destruct (truthy p); simpl; [reflexivity|]|];
    destruct (truthy_opt (img_base64 img)) eqn:Hb; simpl; reflexivity.
Qed.

Example processImage_upload :
  processImage (ChatInput.as_any demo_upload)
  = PathImage (lit "/data/uploads/chart.png") (lit "chart.png").
Proof. vm_compute. reflexivity. Qed.

Example processImage_base64 :
  processImage
    (local_as_any {| li_name := lit "a.png"; li_url := lit "blob:1";
                     li_base64 := lit "data:image/png;base64,iVBOR" |})
  = Base64Image (Some (lit "a.png")) (Some (lit "iVBOR"))
      (Some (lit "image/png")).
Proof. vm_compute. reflexivity. Qed.

Lemma processed_carry_all (imgs : list ImageObj) :
  Forall2 carries imgs (List.map processImage imgs).
Proof.
  induction imgs; simpl; constructor; auto using processImage_carries.
Qed.

(** The chat POST is the first effect of [runAct] once the input is
    accepted, whatever the network answers. *)
Lemma runAct_accepted mo ei rid (answer : Fetched ChatReply) st fm :
  let imgs := match ei with
              | Some l => l
              | None => List.map local_as_any (uploadedImages st)
              end in
  finalMessage_of (mode st) (opt_or_else mo (prompt st)) imgs = Some fm ->
  exists body,
    sent_body (snd (runAct mo ei rid answer st)) = Some body
    /\ instruction body = fm
    /\ images body = List.map processImage imgs
    /\ request_id body = rid.
Proof.
  intros imgs H. unfold runAct. fold imgs. rewrite H.
  destruct answer as [|[] r]; simpl; eexists; (split; [reflexivity|]);
    simpl; auto.
Qed.

Lemma runAct_refused mo ei rid (answer : Fetched ChatReply) st :
  let imgs := match ei with
              | Some l => l
              | None => List.map local_as_any (uploadedImages st)
              end in
  finalMessage_of (mode st) (opt_or_else mo (prompt st)) imgs = None ->
  runAct mo ei rid answer st = (st, [Alert AlertNeedInput]).
Proof. intros imgs H. unfold runAct. fold imgs. rewrite H. reflexivity. Qed.

(** C8, as stated, fails: the bubble of a user message does not show the
    cleaned text as it is.  An instruction that names a file five directories
    deep is sent whole and cleaned to itself, but shown with the path
    shortened; and a blank instruction sent with an image is shown as the
    default text. *)
Lemma long_path_is_shortened_on_display :
  instruction
    <$> sent_body (snd (runAct (Some (lit "open /a/b/c/d/e.txt")) None
                          (lit "req-1") NetworkError (demo_run_state chat)))
  = Some (lit "open /a/b/c/d/e.txt" ++ chat_mode_suffix)
  /\ ChatLog.cleanUserMessage (lit "open /a/b/c/d/e.txt" ++ chat_mode_suffix)
     = trim (lit "open /a/b/c/d/e.txt")
  /\ ChatLog.userMessageText (lit "open /a/b/c/d/e.txt" ++ chat_mode_suffix)
     = Some (lit "open .../e.txt")
  /\ str_eqb (lit "open .../e.txt") (trim (lit "open /a/b/c/d/e.txt")) = false
  /\ ChatLog.userMessageText
       (default [] (instruction
          <$> sent_body (snd (runAct (Some (lit "  "))
                                (Some [ChatInput.as_any demo_upload])
                                (lit "req-2") NetworkError
                                (demo_run_state chat)))))
     = Some default_image_message.
Proof. vm_compute. repeat split; reflexivity. Qed.

(** C8, amended. In chat mode [runAct] sends the instruction followed by the
    chat-mode suffix, and [cleanUserMessage] gives the trimmed instruction
    back from the sent text: the think-hard pattern leaves the sent text
    alone, the suffix pattern removes the suffix and nothing else, also for
    an instruction that itself ends with the suffix.  What the bubble shows
    is made from that trimmed instruction: without the text "Image #" in it
    no image path is removed and it is shown with its paths shortened, and
    without a slash nothing is shortened, so that it is shown as it is.  A
    blank instruction with images is replaced by the default text before it
    is sent, and the default text is what is shown; a blank instruction
    without images is not sent. *)
Theorem chat_suffix_round_trip (st : RunState) (mo : option jsstring)
  (imgs : option (list ImageObj)) (rid : jsstring)
  (answer : Fetched ChatReply) :
  mode st = chat ->
  let typed := opt_or_else mo (prompt st) in
  let attached := match imgs with
                  | Some l => l
                  | None => List.map local_as_any (uploadedImages st)
                  end in
  let sent := instruction <$> sent_body (snd (runAct mo imgs rid answer st)) in
  if truthy (trim typed) then
    sent = Some (typed ++ chat_mode_suffix)
    /\ replace_to_end ChatLog.think_hard_here (typed ++ chat_mode_suffix)
       = typed ++ chat_mode_suffix
    /\ replace_to_end ChatLog.chat_suffix_here (typed ++ chat_mode_suffix)
       = typed
    /\ ChatLog.cleanUserMessage (typed ++ chat_mode_suffix) = trim typed
    /\ ChatLog.userMessageText (typed ++ chat_mode_suffix)
       = ChatLog.textBlock (trim typed)
    /\ (includes (lit "Image #") typed = false ->
        ChatLog.userMessageText (typed ++ chat_mode_suffix)
        = Some (ChatLog.shortenPath (trim typed)))
    /\ (includes (lit "Image #") typed = false -> 47 ∉ typed ->
        ChatLog.userMessageText (typed ++ chat_mode_suffix)
        = Some (trim typed))
  else if negb (Nat.eqb (length attached) 0) then
    sent = Some (default_image_message ++ chat_mode_suffix)
    /\ ChatLog.cleanUserMessage (default_image_message ++ chat_mode_suffix)
       = default_image_message
    /\ ChatLog.userMessageText (default_image_message ++ chat_mode_suffix)
       = Some default_image_message
  else sent = None.
Proof.
  intros Hmode typed attached sent. subst sent.
  change chat_mode_suffix with ChatLog.chat_mode_suffix.
  destruct (truthy (trim typed)) eqn:Ht.
  - destruct (runAct_accepted mo imgs rid answer st
                (typed ++ ChatLog.chat_mode_suffix)) as (body & Hb & Hi & _).
    { fold typed. fold attached. unfold finalMessage_of.
      rewrite Ht, Hmode. reflexivity. }
    rewrite Hb. simpl. rewrite Hi.
    assert (Hshow : ChatLog.userMessageText (typed ++ ChatLog.chat_mode_suffix)
                    = ChatLog.textBlock (trim typed))
      by (unfold ChatLog.userMessageText;
          rewrite cleanUserMessage_suffixed; reflexivity).
    split; [reflexivity|].
    split; [apply replace_think_hard_keeps|].
    split; [apply replace_chat_suffix_strips|].
    split; [apply cleanUserMessage_suffixed|].
    split; [exact Hshow|]. split.
    + intros Himg. rewrite Hshow, textBlock_without_image_paths, Ht by exact Himg.
      reflexivity.
    + intros Himg Hslash.
      rewrite Hshow, textBlock_without_image_paths, Ht by exact Himg.
      rewrite shortenPath_no_slash by (apply notin_trim; exact Hslash).
      reflexivity.
  - destruct (Nat.eqb (length attached) 0) eqn:Ha; simpl negb; cbv iota.
    + rewrite (runAct_refused mo imgs rid answer st); [reflexivity|].
      fold typed. fold attached. unfold finalMessage_of.
      rewrite Ht, Ha. reflexivity.
    + destruct (runAct_accepted mo imgs rid answer st
                  (default_image_message ++ ChatLog.chat_mode_suffix))
        as (body & Hb & Hi & _).
      { fold typed. fold attached. unfold finalMessage_of.
        rewrite Ht, Ha, Hmode. reflexivity. }
      rewrite Hb. simpl. rewrite Hi. split; [reflexivity|].
      split; vm_compute; reflexivity.
Qed.

Lemma chat_suffix_round_trip_witness :
  instruction
    <$> sent_body (snd (runAct (Some (lit "Why is the build red?")) None
                          (lit "req-1") NetworkError (demo_run_state chat)))
  = Some (lit "Why is the build red?" ++ chat_mode_suffix)
  /\ ChatLog.cleanUserMessage (lit "Why is the build red?" ++ chat_mode_suffix)
     = lit "Why is the build red?"
  /\ ChatLog.userMessageText (lit "Why is the build red?" ++ chat_mode_suffix)
     = Some (lit "Why is the build red?").
Proof.
  pose proof (chat_suffix_round_trip (demo_run_state chat)
                (Some (lit "Why is the build red?")) None (lit "req-1")
                NetworkError eq_refl) as H.
  cbv zeta in H.
  change (truthy (trim (opt_or_else (Some (lit "Why is the build red?"))
                          (prompt (demo_run_state chat))))) with true in H.
  cbv iota in H.
  change (opt_or_else (Some (lit "Why is the build red?"))
            (prompt (demo_run_state chat)))
    with (lit "Why is the build red?") in H.
  destruct H as (H1 & _ & _ & H4 & _ & _ & H7).
  split; [exact H1|]. split; [exact H4|].
  apply H7; [reflexivity|]. apply (bool_decide_unpack _). vm_compute.
  reflexivity.
Defined.

(** C5. A submission whose instruction is empty or blank: with attachments
    the chat input substitutes its default text, the page sends it (followed
    by the chat-mode suffix in chat mode) and every attachment is carried in
    the request; without attachments the chat input sends nothing and
    changes nothing.  Called directly, [runAct] does the same with its own
    default text and, without attachments, only alerts. *)
Theorem blank_instruction_submission (input : ChatInput.State)
  (st : RunState) (rid : jsstring) (answer : Fetched ChatReply) :
  truthy (trim (ChatInput.message input)) = false ->
  truthy (trim (prompt st)) = false ->
  (match ChatInput.uploadedImages input with
   | [] => submit false input rid answer st = (input, st, [])
   | _ :: _ =>
       exists body,
         sent_body (snd (submit false input rid answer st)) = Some body
         /\ instruction body
            = ChatInput.default_file_message ++ mode_suffix (mode st)
         /\ truthy (trim (instruction body)) = true
         /\ Forall2 carries
              (List.map ChatInput.as_any (ChatInput.uploadedImages input))
              (images body)
   end)
  /\ (forall imgs : list ImageObj,
        match imgs with
        | [] =>
            runAct (Some (ChatInput.message input)) (Some []) rid answer st
            = (st, [Alert AlertNeedInput])
        | _ :: _ =>
            exists body,
              sent_body
                (snd (runAct (Some (ChatInput.message input)) (Some imgs)
                        rid answer st)) = Some body
              /\ instruction body
                 = default_image_message ++ mode_suffix (mode st)
              /\ truthy (trim (instruction body)) = true
              /\ Forall2 carries imgs (images body)
        end).
Proof.
  intros Hmsg Hprompt. split.
  - unfold submit, ChatInput.handleSubmit. rewrite Hmsg.
    destruct (ChatInput.uploadedImages input) as [|f fs] eqn:Hup.
    + reflexivity.
    + cbn [length Nat.eqb negb orb andb or_else].
      apply truthy_false_nil in Hmsg. rewrite Hmsg.
      cbn [or_else truthy].
      unfold onSendMessage. cbn [fst snd].
      match goal with
      | |- context [runAct ?mo ?ei rid answer st] =>
          destruct (runAct_accepted mo ei rid answer st
                      (ChatInput.default_file_message ++ mode_suffix (mode st)))
            as (body & Hb & Hi & Hims & _)
      end.
      * unfold finalMessage_of. destruct (mode st); vm_compute; reflexivity.
      * exists body.
        destruct (runAct _ _ rid answer st) as [st' es]. cbn [snd] in *.
        split; [exact Hb|]. split; [exact Hi|]. split.
        -- rewrite Hi. destruct (mode st); vm_compute; reflexivity.
        -- rewrite Hims. apply processed_carry_all.
  - assert (Hfm : truthy (trim (opt_or_else (Some (ChatInput.message input))
                                  (prompt st))) = false).
    { simpl. unfold or_else.
      destruct (truthy (ChatInput.message input)); assumption. }
    intros [|i imgs].
    + apply runAct_refused. unfold finalMessage_of. rewrite Hfm. reflexivity.
    + destruct (runAct_accepted (Some (ChatInput.message input))
                  (Some (i :: imgs)) rid answer st
                  (default_image_message ++ mode_suffix (mode st)))
        as (body & Hb & Hi & Hims & _).
      * unfold finalMessage_of. rewrite Hfm. simpl.
        destruct (mode st); simpl; rewrite ?app_nil_r; reflexivity.
      * exists body. split; [exact Hb|]. split; [exact Hi|]. split.
        -- rewrite Hi. destruct (mode st); vm_compute; reflexivity.
        -- rewrite Hims. apply processed_carry_all.
Qed.

Lemma blank_instruction_submission_witness :
  exists body,
    sent_body
      (snd (submit false
              {| ChatInput.message := lit "  ";
                 ChatInput.uploadedImages := [demo_upload] |}
              (lit "req-2") (Response true {| reply_text := [];
                                              reply_session_id := None |})
              (demo_run_state act))) = Some body
    /\ instruction body = ChatInput.default_file_message
    /\ images body
       = [PathImage (lit "/data/uploads/chart.png") (lit "chart.png")].
Proof.
  destruct (blank_instruction_submission
              {| ChatInput.message := lit "  ";
                 ChatInput.uploadedImages := [demo_upload] |}
              (demo_run_state act) (lit "req-2")
              (Response true {| reply_text := []; reply_session_id := None |}))
    as [H _]; [reflexivity | reflexivity |].
  destruct H as (body & Hb & Hi & _ & _).
  exists body. split; [exact Hb|]. split.
  - rewrite Hi. apply app_nil_r.
  - vm_compute in Hb. injection Hb as <-. reflexivity.
Defined.

End Sending.

(** ** The transcript of a viewer *)

Section Transcript.

Import ChatLog.

Lemma seen_iff (m : ChatMessage) (prev : list ChatMessage) :
  existsb (fun msg => str_eqb (id msg) (id m)) prev = true
  <-> id m ∈ ids prev.
Proof.
  induction prev as [|x prev IH]; simpl.
  - split; [discriminate | intros H; inversion H].
  - rewrite orb_true_iff, IH, str_eqb_eq, elem_of_cons.
    split; intros [H|H]; auto.
Qed.

Lemma appendIfNew_known (m : ChatMessage) (prev : list ChatMessage) :
  id m ∈ ids prev -> appendIfNew m prev = prev.
Proof.
  intros H. apply seen_iff in H. unfold appendIfNew. rewrite H. reflexivity.
Qed.

Lemma appendIfNew_new (m : ChatMessage) (prev : list ChatMessage) :
  id m ∉ ids prev -> appendIfNew m prev = prev ++ [m].
Proof.
  intros H. unfold appendIfNew.
  destruct (existsb _ prev) eqn:E; [|reflexivity].
  apply seen_iff in E. contradiction.
Qed.

Lemma appendIfNew_NoDup (m : ChatMessage) (prev : list ChatMessage) :
  NoDup (ids prev) -> NoDup (ids (appendIfNew m prev)).
Proof.
  intros H. destruct (decide (id m ∈ ids prev)) as [Hin|Hin].
  - rewrite appendIfNew_known by assumption. exact H.
  - rewrite appendIfNew_new by assumption. unfold ids.
    rewrite List.map_app. apply NoDup_app. split; [exact H|]. split.
    + intros x Hx Hx'. simpl in Hx'. apply list_elem_of_singleton in Hx'.
      subst x. contradiction.
    + simpl. apply NoDup_singleton.
Qed.

Lemma messages_onMessage env w st :
  messages (onMessage env w st)
  = appendIfNew (chatMessage_of env w) (messages st).
Proof.
  unfold onMessage.
  destruct (str_eqb (role (chatMessage_of env w)) (lit "assistant"));
    reflexivity.
Qed.

Lemma messages_deliver ds st :
  messages (deliver ds st) = absorb (incoming ds) (messages st).
Proof.
  unfold deliver, absorb, incoming. revert st.
  induction ds as [|d ds IH]; intros st; simpl; [reflexivity|].
  rewrite IH, messages_onMessage. reflexivity.
Qed.

(** Whatever arrives, the transcript grows at its end by a subsequence of
    the arrivals and keeps its ids distinct. *)
Lemma absorb_sublist (ms prev : list ChatMessage) :
  NoDup (ids prev) ->
  exists kept,
    absorb ms prev = prev ++ kept /\ sublist kept ms
    /\ NoDup (ids (prev ++ kept)).
Proof.
  revert prev. induction ms as [|m ms IH]; intros prev Hnd.
  - exists []. rewrite app_nil_r. split; [reflexivity|].
    split; [constructor | exact Hnd].
  - change (absorb (m :: ms) prev) with (absorb ms (appendIfNew m prev)).
    destruct (IH _ (appendIfNew_NoDup m prev Hnd)) as (kept & He & Hs & Hn).
    destruct (decide (id m ∈ ids prev)) as [Hin|Hin].
    + rewrite appendIfNew_known in * by assumption.
      exists kept. split; [exact He|]. split; [|exact Hn].
      apply sublist_cons. exact Hs.
    + rewrite appendIfNew_new in * by assumption.
      exists (m :: kept). rewrite <- app_assoc in He, Hn. simpl in He, Hn.
      split; [exact He|]. split; [|exact Hn].
      apply sublist_skip. exact Hs.
Qed.

(** Arrivals with ids that are new and pairwise distinct are all kept. *)
Lemma absorb_distinct (ms prev : list ChatMessage) :
  NoDup (ids (prev ++ ms)) -> absorb ms prev = prev ++ ms.
Proof.
  revert prev. induction ms as [|m ms IH]; intros prev Hnd.
  - rewrite app_nil_r. reflexivity.
  - change (absorb (m :: ms) prev) with (absorb ms (appendIfNew m prev)).
    assert (Hin : id m ∉ ids prev).
    { unfold ids in *. rewrite List.map_app in Hnd.
      apply NoDup_app in Hnd as (_ & Hd & _).
      intros H. apply (Hd _ H). simpl. left. }
    rewrite appendIfNew_new by assumption.
    rewrite IH; rewrite <- app_assoc; [reflexivity | exact Hnd].
Qed.

(** The entry that [onMessage] makes of a frame holds what the frame
    carried: its role, kind, content, metadata and the ids it refers to; its
    id and its time are the frame's, or made up when the frame has none. *)
Lemma incoming_holds_frames (ds : list (Stamp * WsMessage)) :
  Forall2
    (fun d m =>
       id m = opt_or_else (ws_id (snd d)) (fresh_id (fst d))
       /\ role m = ws_role (snd d)
       /\ message_type m = ws_message_type (snd d)
       /\ content m = opt_or_else (ws_content (snd d)) []
       /\ metadata_json m = ws_metadata_json (snd d)
       /\ parent_message_id m = ws_parent_message_id (snd d)
       /\ session_id m = ws_session_id (snd d)
       /\ conversation_id m = ws_conversation_id (snd d)
       /\ created_at m = opt_or_else (ws_created_at (snd d)) (now_iso (fst d)))
    ds (incoming ds).
Proof.
  induction ds as [|d ds IH]; simpl; constructor; [|exact IH].
  repeat split; reflexivity.
Qed.

(** C1. A viewer whose transcript has distinct ids receives the frames [ds]
    in this order.  Each frame is either appended at the end or, when its id
    is already in the transcript, leaves the transcript as it is; so the
    transcript ends in a subsequence of the arrivals, in arrival order, and
    its ids stay distinct; and when the arriving ids are new and pairwise
    distinct the transcript is the old one followed by exactly the
    arrivals: one entry per frame, in the order of the frames, each with
    the role, kind, content, metadata and references of its frame, and
    with the frame's id and time (made up when the frame has none). *)
Theorem transcript_follows_delivery (ds : list (Stamp * WsMessage))
  (st : State) :
  NoDup (ids (messages st)) ->
  let after := messages (deliver ds st) in
  (forall env w s,
      messages (onMessage env w s)
      = if bool_decide (id (chatMessage_of env w) ∈ ids (messages s))
        then messages s
        else messages s ++ [chatMessage_of env w])
  /\ (exists kept,
         after = messages st ++ kept /\ sublist kept (incoming ds))
  /\ NoDup (ids after)
  /\ (NoDup (ids (messages st ++ incoming ds)) ->
      after = messages st ++ incoming ds)
  /\ Forall2
       (fun d m =>
          id m = opt_or_else (ws_id (snd d)) (fresh_id (fst d))
          /\ role m = ws_role (snd d)
          /\ message_type m = ws_message_type (snd d)
          /\ content m = opt_or_else (ws_content (snd d)) []
          /\ metadata_json m = ws_metadata_json (snd d)
          /\ parent_message_id m = ws_parent_message_id (snd d)
          /\ session_id m = ws_session_id (snd d)
          /\ conversation_id m = ws_conversation_id (snd d)
          /\ created_at m
             = opt_or_else (ws_created_at (snd d)) (now_iso (fst d)))
       ds (incoming ds)
  /\ (NoDup (ids (messages st ++ incoming ds)) ->
      Forall2
        (fun d m =>
           id m = opt_or_else (ws_id (snd d)) (fresh_id (fst d))
           /\ role m = ws_role (snd d)
           /\ message_type m = ws_message_type (snd d)
           /\ content m = opt_or_else (ws_content (snd d)) []
           /\ metadata_json m = ws_metadata_json (snd d))
        ds (drop (length (messages st)) after)).
Proof.
  intros Hnd after. subst after. rewrite messages_deliver.
  split; [|split; [|split; [|split; [|split]]]].
  5: apply incoming_holds_frames.
  5: { intros Hd. rewrite (absorb_distinct _ _ Hd), drop_app_length.
       eapply Forall2_impl; [apply incoming_holds_frames|].
       intros d m (H1 & H2 & H3 & H4 & H5 & _). auto. }
  - intros env w s. rewrite messages_onMessage. case_bool_decide.
    + apply appendIfNew_known. assumption.
    + apply appendIfNew_new. assumption.
  - destruct (absorb_sublist (incoming ds) _ Hnd) as (kept & He & Hs & _).
    exists kept. split; assumption.
  - destruct (absorb_sublist (incoming ds) _ Hnd) as (kept & He & _ & Hn).
    rewrite He. exact Hn.
  - apply absorb_distinct.
Qed.

End Transcript.

Section TranscriptExamples.

Import ChatLog.

Lemma transcript_follows_delivery_witness :
  messages (deliver [frame "m1" "user" "hello"; frame "m2" "assistant" "hi"]
              fresh_viewer)
  = [entry "m1" "user" "hello"; entry "m2" "assistant" "hi"].
Proof.
  destruct (transcript_follows_delivery
              [frame "m1" "user" "hello"; frame "m2" "assistant" "hi"]
              fresh_viewer) as (_ & _ & _ & H & _).
  - simpl. constructor.
  - change [entry "m1" "user" "hello"; entry "m2" "assistant" "hi"]
      with (messages fresh_viewer
            ++ incoming [frame "m1" "user" "hello";
                         frame "m2" "assistant" "hi"]).
    apply H. apply (bool_decide_unpack _). vm_compute. reflexivity.
Defined.

(** A frame that repeats an id is dropped. *)
Example repeated_frame_dropped :
  messages (deliver [frame "m1" "user" "hello"; frame "m1" "user" "hello";
                     frame "m2" "assistant" "hi"] fresh_viewer)
  = [entry "m1" "user" "hello"; entry "m2" "assistant" "hi"].
Proof. vm_compute. reflexivity. Qed.

End TranscriptExamples.

(** ** What is shown *)

Section Display.

Import ChatLog.

(** C4. A record that is marked hidden and has the image flag is shown, and
    is in the rendered list of a viewer that holds it: the image test is the
    first of [shouldDisplayMessage] and returns [true] before the test that
    is commented to hide the messages marked hidden is reached. *)
Lemma hidden_with_image_is_shown :
  marked_hidden hidden_with_image = true
  /\ has_pictures hidden_with_image = true
  /\ shouldDisplayMessage hidden_with_image = true
  /\ displayed (set_messages (fun _ => [hidden_with_image]) fresh_viewer)
     = [hidden_with_image].
Proof. repeat split; reflexivity. Qed.

Lemma pictures_always_shown (m : ChatMessage) :
  has_pictures m = true -> shouldDisplayMessage m = true.
Proof. intros H. unfold shouldDisplayMessage. rewrite H. reflexivity. Qed.

Lemma hidden_filter (m : ChatMessage) :
  marked_hidden m = true -> shouldDisplayMessage m = has_pictures m.
Proof.
  intros H. unfold shouldDisplayMessage. rewrite H.
  destruct (has_pictures m); [reflexivity|].
  repeat match goal with |- context [if ?b then _ else _] => destruct b end;
    reflexivity.
Qed.

(** What the filter does with a message marked hidden: it is shown exactly
    when it has the image flag or a non-empty attachment list; without them
    the filter returns [false] whatever its role, kind and content, and the
    message is not in the rendered list. *)
Lemma hidden_shown_only_with_pictures (m : ChatMessage) :
  marked_hidden m = true ->
  shouldDisplayMessage m = has_pictures m
  /\ (forall st, has_pictures m = false -> m ∉ displayed st).
Proof.
  intros H. split; [apply hidden_filter, H|].
  intros st Hp Hin. unfold displayed in Hin.
  apply list_elem_of_In, filter_In in Hin as [_ Hd].
  rewrite (hidden_filter m H), Hp in Hd. discriminate.
Qed.

Example hidden_result_record_not_shown :
  shouldDisplayMessage hidden_result_record = false.
Proof.
  destruct (hidden_shown_only_with_pictures hidden_result_record eq_refl)
    as [H _].
  exact H.
Qed.

End Display.

(** ** Status events *)

Section Status.

Import ChatLog.




End Status.

(** ** Polling the active-request status *)

Section Polling.

Import UserRequests.

Lemma track_clear_current (st : State) (live : list N) :
  one_timer (st, live) -> track_timers (clear_current st) live = [].
Proof.
  unfold one_timer, clear_current, track_timers. simpl.
  intros [-> | (p & -> & -> & _)].
  - destruct (intervalRef st); reflexivity.
  - simpl. rewrite N.eqb_refl. reflexivity.
Qed.

Lemma track_timers_app (a b : list Effect) (live : list N) :
  track_timers (a ++ b) live = track_timers b (track_timers a live).
Proof. unfold track_timers. apply fold_left_app. Qed.

Lemma checkActiveRequests_ref (answer : Fetched ActiveRequestsResponse)
  (st : State) :
  intervalRef (fst (checkActiveRequests answer st)) = intervalRef st
  /\ track_timers (snd (checkActiveRequests answer st)) [] = [].
Proof.
  unfold checkActiveRequests. destruct (isTabVisible st); [|split; reflexivity].
  destruct answer as [|[] d]; split; reflexivity.
Qed.

Lemma hook_step_one_timer (ev : HookEvent) (s : State * list N) :
  one_timer s -> one_timer (hook_step ev s).
Proof.
  destruct s as [st live]. intros H.
  destruct ev as [b | answer | | answer]; simpl.
  - destruct H as [H | (p & H1 & H2 & H3)]; [left; exact H|].
    right. exists p. auto.
  - unfold pollingEffect. destruct (isTabVisible st).
    + destruct (checkActiveRequests_ref answer st) as [Hr Ht].
      destruct (checkActiveRequests answer st) as [st1 e]. simpl in *.
      rewrite !track_timers_app, (track_clear_current st live H).
      rewrite Ht. right. exists (pollInterval (hasActiveRequests st)).
      split; [reflexivity|]. split; [reflexivity|].
      destruct (hasActiveRequests st); auto.
    + simpl. left. apply track_clear_current, H.
  - left. apply track_clear_current, H.
  - destruct live as [|p live]; [exact H|]. simpl.
    destruct H as [H | (q & H1 & H2 & H3)]; [discriminate|].
    right. exists q. simpl in *.
    destruct (checkActiveRequests_ref answer st) as [-> _]. auto.
Qed.

Lemma hook_run_one_timer (evs : list HookEvent) :
  one_timer (hook_run evs mounted).
Proof.
  unfold hook_run. generalize mounted (or_introl eq_refl : one_timer mounted).
  induction evs as [|ev evs IH]; intros s Hs; simpl; [exact Hs|].
  apply IH, hook_step_one_timer, Hs.
Qed.

(** C7, as stated, fails: on a visible page whose requests have ended the
    effect clears the 500 ms timer and installs one of 5000 ms, which is then
    the only timer that runs, so the status is queried every five
    seconds. *)
Lemma idle_polling_every_five_seconds :
  snd (hook_run (requests_end ++ [EffectRuns idle_answer]) mounted) = [5000]
  /\ hasActiveRequests
       (fst (hook_run (requests_end ++ [EffectRuns idle_answer]) mounted))
     = false
  /\ isTabVisible
       (fst (hook_run (requests_end ++ [EffectRuns idle_answer]) mounted))
     = true
  /\ snd (hook_run requests_end mounted) = [500]
  /\ snd (pollingEffect idle_answer (fst (hook_run requests_end mounted)))
     = [ClearInterval 500; HttpGetActive; SetInterval 5000]
  /\ ~ (5000 < 1000).
Proof. vm_compute. repeat split; try reflexivity. discriminate. Qed.

(** C7, amended. The status is read by one GET whose answer overwrites
    [hasActiveRequests] and [activeCount] and touches nothing else.  A run
    of the polling effect on a visible tab clears the timer it had set,
    queries once and sets a timer of 500 ms when requests are active and of
    5000 ms when none is; on a hidden tab it only clears the timer.  In
    every state that the mounted hook reaches, through any sequence of
    visibility changes, effect runs, cleanups and timer firings, at most one
    timer runs, with one of these two periods; after a run of the effect
    the timer of the period just chosen is the only one that runs on a
    visible tab, and none runs on a hidden one; a firing timer leaves the
    timers as they are.  So the period between two queries is below one
    second exactly while requests are active, and while the tab is hidden no
    query is made. *)
Theorem polling_period_adapts (evs : list HookEvent)
  (answer : Fetched ActiveRequestsResponse) (st : State) :
  intervalRef (fst (pollingEffect answer st))
  = (if isTabVisible st then Some (pollInterval (hasActiveRequests st))
     else None)
  /\ (forall b, pollInterval b = if b then 500 else 5000)
  /\ (forall b, pollInterval b < 1000 <-> b = true)
  /\ snd (checkActiveRequests answer st)
     = (if isTabVisible st then [HttpGetActive] else [])
  /\ fst (checkActiveRequests answer st)
     = (if isTabVisible st then
          match answer with
          | Response true data =>
              {| hasActiveRequests := r_hasActiveRequests data;
                 activeCount := r_activeCount data;
                 isTabVisible := isTabVisible st;
                 intervalRef := intervalRef st;
                 previousActiveState := r_hasActiveRequests data |}
          | _ => st
          end
        else st)
  /\ snd (pollingEffect answer st)
     = clear_current st
       ++ (if isTabVisible st
           then [HttpGetActive; SetInterval (pollInterval (hasActiveRequests st))]
           else [])
  /\ (snd (hook_run evs mounted) = []
      \/ exists b, snd (hook_run evs mounted) = [pollInterval b])
  /\ snd (hook_step (EffectRuns answer) (hook_run evs mounted))
     = (if isTabVisible (fst (hook_run evs mounted))
        then [pollInterval (hasActiveRequests (fst (hook_run evs mounted)))]
        else [])
  /\ snd (hook_step (IntervalFires answer) (hook_run evs mounted))
     = snd (hook_run evs mounted).
Proof.
  split; [|split; [|split; [|split; [|split; [|split; [|split; [|split]]]]]]].
  - unfold pollingEffect, checkActiveRequests.
    destruct (isTabVisible st); simpl; [|reflexivity].
    destruct answer as [|[] d]; reflexivity.
  - intros []; reflexivity.
  - intros []; simpl; split; intros H; try reflexivity; try lia; discriminate.
  - unfold checkActiveRequests.
    destruct (isTabVisible st); simpl; [|reflexivity].
    destruct answer as [|[] d]; reflexivity.
  - unfold checkActiveRequests.
    destruct (isTabVisible st); simpl; [|reflexivity].
    destruct answer as [|[] d]; reflexivity.
  - unfold pollingEffect, checkActiveRequests.
    destruct (isTabVisible st); simpl; [|rewrite app_nil_r; reflexivity].
    destruct answer as [|[] d]; reflexivity.
  - destruct (hook_run_one_timer evs) as [H | (p & H & _ & [-> | ->])].
    + left. exact H.
    + right. exists true. exact H.
    + right. exists false. exact H.
  - pose proof (hook_run_one_timer evs) as H.
    destruct (hook_run evs mounted) as [s live]. simpl.
    unfold pollingEffect. destruct (isTabVisible s).
    + destruct (checkActiveRequests_ref answer s) as [_ Ht].
      destruct (checkActiveRequests answer s) as [st1 e]. simpl in *.
      rewrite !track_timers_app, (track_clear_current s live H), Ht.
      reflexivity.
    + simpl. apply track_clear_current, H.
  - destruct (hook_run evs mounted) as [s [|p live]]; reflexivity.
Qed.

End Polling.

(** ** Starting and stopping the preview *)

Section Preview.

Import ChatPage.

Lemma chatInputStop_flag (answer : Fetched unit) (st : PreviewState) :
  recordInterruptState (fst (fst (chatInputStop answer st)))
  = match answer with
    | Response true _ => true
    | _ => recordInterruptState st
    end.
Proof. destruct answer as [|[] u]; reflexivity. Qed.

Lemma stop_effects (net : Net) (st : PreviewState) :
  snd (stop net st) = [HttpPost ApiPreviewStop None].
Proof. unfold stop. destruct (preview_stop net); reflexivity. Qed.

Lemma start_effects_clear (url : jsstring) (net : Net) (st : PreviewState) :
  recordInterruptState st = false ->
  posts_to is_preview_start (snd (start url net st))
  = (if truthy url then 0 else 1)%nat
  /\ posts_to is_preview_stop (snd (start url net st)) = 0%nat.
Proof.
  intros H. unfold start, start_seen. rewrite H.
  destruct (truthy url); [split; reflexivity|].
  destruct (preview_start net) as [|[] u]; split; reflexivity.
Qed.

(** C10, as stated, fails: when the stop request itself is rejected by the
    network, [stop] changes nothing, so after [start] the flag is still set
    and the preview URL is still there. *)
Lemma interrupted_start_offline_keeps_flag :
  let st := preview_state (Some (lit "http://localhost:3000")) true false in
  start [] net_down st = (st, [HttpPost ApiPreviewStop None])
  /\ recordInterruptState (fst (start [] net_down st)) = true
  /\ previewUrl (fst (start [] net_down st))
     = Some (lit "http://localhost:3000").
Proof. split; [reflexivity|]. split; reflexivity. Qed.

(** C10, amended. With the interrupt flag set, [start] does not ask for a
    preview: it does what [stop] does, that is, it posts the stop request
    and, once that request has resolved, clears the flag and sets the
    preview URL to null; when the request is rejected by the network the
    state is left as it was.  A call of [start] asks for a preview only
    when the flag is clear, and then the next call without a URL does. *)
Theorem interrupted_start_stops (url : jsstring) (net net' : Net)
  (st : PreviewState) :
  recordInterruptState st = true ->
  let st' := fst (start url net st) in
  start url net st = stop net st
  /\ snd (start url net st) = [HttpPost ApiPreviewStop None]
  /\ isStartingPreview st' = isStartingPreview st
  /\ match preview_stop net with
     | Response _ _ =>
         recordInterruptState st' = false /\ previewUrl st' = None
         /\ posts_to is_preview_start (snd (start [] net' st')) = 1%nat
     | NetworkError =>
         st' = st /\ start [] net' st' = stop net' st
     end
  /\ (forall u n s,
        (0 < posts_to is_preview_start (snd (start u n s)))%nat ->
        recordInterruptState s = false).
Proof.
  intros H st'. subst st'.
  assert (Hs : start url net st = stop net st) by (unfold start, start_seen; rewrite H; reflexivity).
  rewrite Hs. split; [reflexivity|]. split; [apply stop_effects|].
  split; [unfold stop; destruct (preview_stop net); reflexivity|]. split.
  - unfold stop. destruct (preview_stop net) as [|ok u]; cbn [fst].
    + split; [reflexivity|]. unfold start, start_seen. rewrite H. reflexivity.
    + split; [reflexivity|]. split; [reflexivity|].
      apply (start_effects_clear [] net'). reflexivity.
  - intros u n s Hp. destruct (recordInterruptState s) eqn:E; [|reflexivity].
    unfold start, start_seen in Hp. rewrite E, stop_effects in Hp.
    unfold posts_to in Hp. simpl in Hp. lia.
Qed.

Lemma interrupted_start_stops_witness :
  let st := preview_state (Some (lit "http://localhost:3000")) true true in
  snd (start [] net_up st) = [HttpPost ApiPreviewStop None]
  /\ recordInterruptState (fst (start [] net_up st)) = false
  /\ previewUrl (fst (start [] net_up st)) = None.
Proof.
  intros st.
  destruct (interrupted_start_stops [] net_up net_up st eq_refl)
    as (_ & He & _ & (Hf & Hu & _) & _).
  split; [exact He|]. split; [exact Hf | exact Hu].
Defined.

Lemma autoPreviewEffect_cases (has : bool) (net : Net) (st : PreviewState) :
  autoPreviewEffect has net st
  = if stop_branch has st then
      (set_previousActiveState has (fst (stop net st)), snd (stop net st))
    else if start_branch has st then
      (set_previousActiveState has (fst (start [] net st)),
       snd (start [] net st))
    else (set_previousActiveState has st, []).
Proof.
  unfold autoPreviewEffect, stop_branch, start_branch.
  destruct has, (truthy_opt (previewUrl st)), (previousActiveState st);
    simpl;
    try (destruct (stop net st) as [s e]; simpl; rewrite ?app_nil_r; reflexivity);
    try (destruct (start [] net st) as [s e]; reflexivity);
    reflexivity.
Qed.

(** C3, as stated, fails: on the transition from active to idle with no
    preview, but after an interrupt was recorded, the effect calls [start],
    which posts the stop request and starts nothing. *)
Lemma idle_after_interrupt_starts_nothing :
  let st := preview_state None true true in
  start_branch false st = true
  /\ snd (autoPreviewEffect false net_up st) = [HttpPost ApiPreviewStop None]
  /\ posts_to is_preview_start (snd (autoPreviewEffect false net_up st))
     = 0%nat.
Proof. split; [reflexivity|]. split; reflexivity. Qed.

Lemma autoPreviewEffect_posts (has : bool) (net : Net) (st : PreviewState) :
  let r := autoPreviewEffect has net st in
  previousActiveState (fst r) = has
  /\ posts_to is_preview_stop (snd r)
     = (if stop_branch has st
           || start_branch has st && recordInterruptState st
        then 1 else 0)%nat
  /\ posts_to is_preview_start (snd r)
     = (if start_branch has st && negb (recordInterruptState st)
        then 1 else 0)%nat.
Proof.
  intros r. subst r. rewrite autoPreviewEffect_cases.
  unfold stop_branch, start_branch.
  destruct has, (truthy_opt (previewUrl st)), (previousActiveState st);
    cbn [andb orb negb fst snd];
    rewrite ?stop_effects;
    try (split; [reflexivity|]; split; reflexivity);
    try (split; [unfold stop; destruct (preview_stop net); reflexivity|];
         split; reflexivity).
  destruct (recordInterruptState st) eqn:Hf.
  - split; [unfold start, start_seen, stop; rewrite Hf;
            destruct (preview_stop net); reflexivity|].
    unfold start, start_seen. rewrite Hf, stop_effects. split; reflexivity.
  - destruct (start_effects_clear [] net st Hf) as [H1 H2].
    rewrite H1, H2. split; [|split; reflexivity].
    unfold start, start_seen. rewrite Hf. simpl.
    destruct (preview_start net) as [|[] u]; reflexivity.
Qed.

(** Between two runs of the effect a preview is asked for by the second
    only if the first saw active requests and the second sees none. *)
Lemma preview_start_needs_transition (has1 has2 : bool) (net1 net2 : Net)
  (st st2 : PreviewState) :
  previousActiveState st2
  = previousActiveState (fst (autoPreviewEffect has1 net1 st)) ->
  (0 < posts_to is_preview_start (snd (autoPreviewEffect has2 net2 st2)))%nat ->
  has1 = true /\ has2 = false.
Proof.
  intros Hprev Hp.
  destruct (autoPreviewEffect_posts has1 net1 st) as (H1 & _).
  destruct (autoPreviewEffect_posts has2 net2 st2) as (_ & _ & H2).
  cbv zeta in H1, H2. unfold start_branch in H2.
  rewrite H2, Hprev, H1 in Hp.
  destruct has1, has2; simpl in Hp; try lia; split; reflexivity.
Qed.

(** C3, amended. When the effect runs with active requests and a preview URL
    it calls [stop], which posts the stop request.  When it runs with no
    active requests, no preview URL, and active requests at its previous
    run, it calls [start], which asks for a preview unless an interrupt was
    recorded (then it posts the stop request instead).  In every other case
    it does nothing; the effect always records the current activity for its
    next run, so a preview is asked for only on the transition from active
    to idle. *)
Theorem auto_preview_on_transition (has : bool) (net : Net)
  (st : PreviewState) :
  let r := autoPreviewEffect has net st in
  r = (if stop_branch has st then
         (set_previousActiveState has (fst (stop net st)), snd (stop net st))
       else if start_branch has st then
         (set_previousActiveState has (fst (start [] net st)),
          snd (start [] net st))
       else (set_previousActiveState has st, []))
  /\ previousActiveState (fst r) = has
  /\ posts_to is_preview_stop (snd r)
     = (if stop_branch has st
           || start_branch has st && recordInterruptState st
        then 1 else 0)%nat
  /\ posts_to is_preview_start (snd r)
     = (if previousActiveState st && negb has
           && negb (truthy_opt (previewUrl st))
           && negb (recordInterruptState st)
        then 1 else 0)%nat
  /\ (forall has0 net0 st0,
        previousActiveState st
        = previousActiveState (fst (autoPreviewEffect has0 net0 st0)) ->
        (0 < posts_to is_preview_start (snd r))%nat ->
        has0 = true /\ has = false).
Proof.
  intros r. subst r.
  split; [apply autoPreviewEffect_cases|].
  destruct (autoPreviewEffect_posts has net st) as (H1 & H2 & H3).
  split; [exact H1|]. split; [exact H2|]. split; [exact H3|].
  intros has0 net0 st0 Hprev Hp.
  exact (preview_start_needs_transition has0 has net0 net st0 st Hprev Hp).
Qed.

(** The other caller of [start]: the session status callback asks for a
    preview when it is told that the session is not running and the render
    that made it saw an initial prompt whose work is not yet marked
    complete, no preview URL and no recorded interrupt. *)
Lemma onSessionStatusChange_start (projectId : jsstring) (v : bool)
  (net : Net) (seen st : PreviewState) :
  recordInterruptState seen = false ->
  posts_to is_preview_start
    (snd (onSessionStatusChange projectId seen v net st))
  = (if negb v && hasInitialPrompt seen && negb (agentWorkComplete seen)
        && negb (truthy_opt (previewUrl seen))
     then 1 else 0)%nat.
Proof.
  intros Hf. unfold onSessionStatusChange.
  destruct (negb v && hasInitialPrompt seen && negb (agentWorkComplete seen)
            && negb (truthy_opt (previewUrl seen))); [|reflexivity].
  rewrite Hf. unfold start_seen, posts_to.
  destruct (truthy []) eqn:Ht; [discriminate Ht|].
  destruct (preview_start net) as [|[] u]; reflexivity.
Qed.

End Preview.

(** ** The initial prompt *)

Section InitialPrompt.

Import ChatPage.

Variable projectId : jsstring.

Lemma initial_posts_app (a b : list Effect) :
  initial_posts (a ++ b) = (initial_posts a + initial_posts b)%nat.
Proof. unfold initial_posts. rewrite List.filter_app, length_app. reflexivity. Qed.

Lemma trigger_guarded (sp : SearchParams) (st : InitialState) :
  initialPromptSentRef st = true ->
  triggerInitialPromptIfNeeded sp st = (st, []).
Proof.
  intros H. unfold triggerInitialPromptIfNeeded.
  destruct (initial_prompt sp) as [p|]; [|reflexivity].
  destruct (truthy p); simpl; [|reflexivity]. rewrite H. reflexivity.
Qed.

(** A trigger posts nothing; it either changes nothing or closes the guard
    and sets one timer. *)
Lemma trigger_outcome (sp : SearchParams) (st : InitialState) :
  let r := triggerInitialPromptIfNeeded sp st in
  initial_posts (snd r) = 0%nat
  /\ (r = (st, [])
      \/ initialPromptSentRef st = false
         /\ initialPromptSentRef (fst r) = true
         /\ exists p, timers_of (snd r) = [SendInitialPrompt p]).
Proof.
  unfold triggerInitialPromptIfNeeded.
  destruct (initial_prompt sp) as [p|]; [|split; [reflexivity | left; reflexivity]].
  destruct (truthy p); simpl; [|split; [reflexivity | left; reflexivity]].
  destruct (initialPromptSentRef st) eqn:Href;
    [split; [reflexivity | left; reflexivity]|].
  split.
  - unfold storage_set.
    destruct (cli sp) as [c|]; [destruct (truthy c)|];
      (destruct (model sp) as [m|]; [destruct (truthy m)|]); reflexivity.
  - right. split; [reflexivity|]. split; [reflexivity|]. exists p.
    unfold storage_set.
    destruct (cli sp) as [c|]; [destruct (truthy c)|];
      (destruct (model sp) as [m|]; [destruct (truthy m)|]); reflexivity.
Qed.

(** One run of [sendInitialPrompt] posts at most once and leaves the ref
    alone, whatever becomes of the request. *)
Lemma send_outcome seen p rid (answer : Fetched ChatReply) st :
  let r := sendInitialPrompt projectId seen p rid answer st in
  (initial_posts (snd r) <= 1)%nat
  /\ initialPromptSentRef (fst r) = initialPromptSentRef st.
Proof.
  unfold sendInitialPrompt.
  destruct seen; [split; [unfold initial_posts; simpl; lia | reflexivity]|].
  destruct answer as [|[] a]; split; try reflexivity;
    unfold initial_posts; simpl; lia.
Qed.

Lemma step_within_budget (ev : InitialEvent) (pg : InitialPage) :
  (initial_posts (snd (initial_step projectId ev pg)) + budget (fst (initial_step projectId ev pg))
   <= budget pg)%nat.
Proof.
  assert (Htrig : forall sp,
    let r := triggerInitialPromptIfNeeded sp (ip_state pg) in
    (initial_posts (snd r)
     + budget {| ip_state := fst r;
                 ip_timers := ip_timers pg ++ timers_of (snd r) |}
     <= budget pg)%nat).
  { intros sp r. destruct (trigger_outcome sp (ip_state pg)) as [Hp Hc].
    fold r in Hp, Hc. rewrite Hp. unfold budget. cbn [ip_state ip_timers].
    destruct Hc as [-> | (Hopen & Hclosed & q & Ht)].
    - simpl. rewrite app_nil_r. lia.
    - rewrite Ht, Hclosed, Hopen, length_app. simpl. lia. }
  destruct ev as [sp | sp | seen rid answer]; simpl.
  - specialize (Htrig sp).
    destruct (triggerInitialPromptIfNeeded sp (ip_state pg)) as [st es].
    exact Htrig.
  - specialize (Htrig sp).
    destruct (triggerInitialPromptIfNeeded sp (ip_state pg)) as [st es].
    exact Htrig.
  - unfold budget. destruct (ip_timers pg) as [|[u| |p] rest] eqn:Ht;
      simpl; rewrite ?Ht; simpl; try lia.
    destruct (send_outcome seen p rid answer (ip_state pg)) as [Hp Hr].
    destruct (sendInitialPrompt projectId seen p rid answer (ip_state pg)) as [st es].
    simpl in *. rewrite Hr. lia.
Qed.

Lemma run_within_budget (evs : list InitialEvent) (pg : InitialPage) :
  (initial_posts (snd (initial_run projectId evs pg)) + budget (fst (initial_run projectId evs pg))
   <= budget pg)%nat.
Proof.
  revert pg. induction evs as [|ev evs IH]; intros pg; simpl; [lia|].
  pose proof (step_within_budget ev pg) as Hs.
  destruct (initial_step projectId ev pg) as [pg1 es1].
  specialize (IH pg1). destruct (initial_run projectId evs pg1) as [pg2 es2].
  simpl in *. rewrite initial_posts_app. lia.
Qed.

Lemma ref_stays_set (ev : InitialEvent) (pg : InitialPage) :
  initialPromptSentRef (ip_state pg) = true ->
  initialPromptSentRef (ip_state (fst (initial_step projectId ev pg))) = true.
Proof.
  intros H. destruct ev as [sp | sp | seen rid answer]; simpl.
  - rewrite trigger_guarded by assumption. exact H.
  - rewrite trigger_guarded by assumption. exact H.
  - destruct (ip_timers pg) as [|[u| |p] rest]; simpl; try exact H.
    destruct (send_outcome seen p rid answer (ip_state pg)) as [_ Hr].
    destruct (sendInitialPrompt projectId seen p rid answer (ip_state pg)) as [st es].
    simpl in *. congruence.
Qed.

(** C9. From the mounted page, whatever the order and number of triggers
    (from the project-load path and from the WebSocket status path), timer
    firings and request outcomes, at most one initial-prompt POST is issued:
    only [triggerInitialPromptIfNeeded] schedules a send, it does so only
    while the ref is unset and sets it at once; nothing resets the ref, so a
    failed send, which puts [initialPromptSent] back to false, does not open
    the guard again. *)
Theorem initial_prompt_sent_at_most_once (evs : list InitialEvent)
  (sid : jsstring) :
  (initial_posts (snd (initial_run projectId evs (initial_page sid))) <= 1)%nat
  /\ (forall ev pg,
        initialPromptSentRef (ip_state pg) = true ->
        initialPromptSentRef (ip_state (fst (initial_step projectId ev pg))) = true)
  /\ (forall sp st,
        initialPromptSentRef st = true ->
        triggerInitialPromptIfNeeded sp st = (st, []))
  /\ (forall p rid st,
        let st' := fst (sendInitialPrompt projectId false p rid NetworkError st) in
        initialPromptSent st' = false
        /\ initialPromptSentRef st' = initialPromptSentRef st).
Proof.
  split; [|split; [|split]].
  - pose proof (run_within_budget evs (initial_page sid)) as H.
    unfold budget in H at 2. simpl in H. lia.
  - apply ref_stays_set.
  - apply trigger_guarded.
  - intros p rid st. split; reflexivity.
Qed.

(** Both paths trigger, the send fails, the paths trigger again: one POST,
    and the state cell is back to false while the ref stays set. *)
Example failed_send_not_repeated :
  let r := initial_run projectId
             [ProjectLoaded with_prompt; StatusBecameActive with_prompt;
              TimerFires false (lit "r1") NetworkError;
              StatusBecameActive with_prompt; ProjectLoaded with_prompt;
              TimerFires false (lit "r2") reply_ok]
             (initial_page []) in
  initial_posts (snd r) = 1%nat
  /\ initialPromptSent (ip_state (fst r)) = false
  /\ initialPromptSentRef (ip_state (fst r)) = true.
Proof. vm_compute. repeat split; reflexivity. Qed.

End InitialPrompt.

(** ** One running session and one running preview per project *)

Section Exclusive.

Import Orchestrator.

















(** A second start while the first session runs is refused and changes
    nothing. *)
Lemma second_start_refused (sys : System) (p sid bk : N) (rid : jsstring)
  (av : bool) :
  session_running (project_of sys p) = true ->
  execute p sid bk rid av sys = inr ConcurrencyConflict.
Proof. intros H. unfold execute. rewrite H. reflexivity. Qed.

Example two_starts_one_session :
  let sys := run [StartPreview 7 11 true;
                  StartSession 7 1 0 (lit "r1") true;
                  StartSession 7 2 0 (lit "r2") true] (boot [3000; 3001]) in
  running_sessions sys 7 = 1%nat /\ running_previews sys 7 = 0%nat.
Proof. vm_compute. split; reflexivity. Qed.

(** The coupling rule at work: the session stops the preview, its end
    starts one again (without a second install), and the requests were
    guarded. *)
Example session_end_restarts_preview :
  let evs := [StartPreview 7 11 true;
              StartSession 7 1 0 (lit "r1") true;
              SessionEnds 7 1 Completed 11 false] in
  starts_guarded evs (boot [3000; 3001]) = true
  /\ running_sessions (run evs (boot [3000; 3001])) 7 = 0%nat
  /\ running_previews (run evs (boot [3000; 3001])) 7 = 1%nat.
Proof. vm_compute. repeat split; reflexivity. Qed.

End Exclusive.

(** * Further properties of the client code *)

(** ** Lines and file names *)

Section PathFacts.

Import Utils.

Lemma includes_unit (c : N) (s : jsstring) : includes [c] s = true <-> c ∈ s.
Proof.
  induction s as [|x s IH]; simpl.
  - split; [discriminate | intros H; inversion H].
  - unfold startsWith. simpl. rewrite elem_of_cons, <- IH.
    destruct (N.eqb_spec c x) as [->|Hne]; simpl.
    + split; auto.
    + split; [intros H; right; exact H | intros [H|H]; [congruence | exact H]].
Qed.

Lemma or_else_nil (a : jsstring) : or_else a [] = a.
Proof. destruct a; reflexivity. Qed.

Lemma replace_all_free (a b : N) (s : jsstring) :
  a <> b -> a ∉ replace_all a b s.
Proof.
  intros Hab Hin. unfold replace_all in Hin.
  apply list_elem_of_In, in_map_iff in Hin as (x & Hx & _).
  destruct (N.eqb_spec x a); congruence.
Qed.

Lemma replace_all_keeps_free (a b c : N) (s : jsstring) :
  c <> b -> c ∉ s -> c ∉ replace_all a b s.
Proof.
  intros Hcb Hc Hin. unfold replace_all in Hin.
  apply list_elem_of_In, in_map_iff in Hin as (x & Hx & Hxs).
  apply list_elem_of_In in Hxs.
  destruct (N.eqb_spec x a); congruence.
Qed.

Lemma replace_all_idem (a b : N) (s : jsstring) :
  a <> b -> replace_all a b (replace_all a b s) = replace_all a b s.
Proof.
  intros Hab. unfold replace_all. rewrite List.map_map.
  apply List.map_ext. intros x.
  destruct (N.eqb_spec x a) as [->|Hx].
  - destruct (N.eqb_spec b a); congruence.
  - destruct (N.eqb_spec x a); congruence.
Qed.

(** The chosen separator does not occur in the name, and the name is the
    end of the path. *)
Lemma getFileNameFromPath_shape (path : jsstring) :
  let sep := if includes [92] path then 92 else 47 in
  exists dir,
    path = dir ++ getFileNameFromPath path
    /\ (sep ∉ getFileNameFromPath path)
    /\ (dir = [] \/ exists d, dir = d ++ [sep]).
Proof.
  intros sep. unfold getFileNameFromPath. fold sep. rewrite or_else_nil.
  destruct (split_last sep path) as (dir & name & -> & Hp & Hf & Hd).
  exists dir. simpl. auto.
Qed.

Lemma getFileNameFromPath_no_backslash (path : jsstring) :
  92 ∉ getFileNameFromPath path.
Proof.
  destruct (getFileNameFromPath_shape path) as (dir & Hp & Hf & _).
  destruct (includes [92] path) eqn:E; [exact Hf|].
  intros Hin. assert (Hc : 92 ∈ path).
  { rewrite Hp. apply elem_of_app. right. exact Hin. }
  apply includes_unit in Hc. congruence.
Qed.

Lemma getFileNameFromPath_plain (name : jsstring) :
  47 ∉ name -> 92 ∉ name -> getFileNameFromPath name = name.
Proof.
  intros H47 H92.
  destruct (getFileNameFromPath_shape name) as (dir & Hp & _ & Hd).
  assert (E : includes [92] name = false).
  { destruct (includes [92] name) eqn:E; [|reflexivity].
    apply includes_unit in E. contradiction. }
  rewrite E in Hd.
  destruct Hd as [-> | (d & ->)]; [symmetry; exact Hp|].
  exfalso. apply H47. rewrite Hp. rewrite <- app_assoc.
  apply elem_of_app. right. left.
Qed.

(** The lines shown by the code block are the content cut at every line
    feed: joined by line feeds they give the content back, there is one more
    line than there are line feeds (so never no line), no line contains a
    line feed, and the virtual list is used from 50 line feeds on. *)
Theorem lines_partition_content (content : jsstring) :
  join 10 (VirtualCodeBlock.lines content) = content
  /\ length (VirtualCodeBlock.lines content)
     = S (length (List.filter (N.eqb 10) content))
  /\ Forall (fun line => 10 ∉ line) (VirtualCodeBlock.lines content)
  /\ VirtualCodeBlock.shouldUseVirtualScroll content
     = Nat.leb 50 (length (List.filter (N.eqb 10) content)).
Proof.
  unfold VirtualCodeBlock.shouldUseVirtualScroll, VirtualCodeBlock.lines.
  split; [apply join_split|]. split; [apply length_split|].
  split; [apply split_pieces_free|].
  rewrite length_split. reflexivity.
Qed.

(** [getFileNameFromPath] returns the end of the path after the last
    separator (a backslash when the path has one, a slash otherwise): the
    name never contains a backslash, it contains a slash only when the path
    has a backslash, and a path without separator is its own name. *)
Theorem file_name_is_last_component (path : jsstring) :
  (exists dir,
     path = dir ++ getFileNameFromPath path
     /\ (dir = [] \/ exists d, dir = d ++ [47] \/ dir = d ++ [92]))
  /\ (92 ∉ getFileNameFromPath path)
  /\ (includes [92] path = false -> 47 ∉ getFileNameFromPath path)
  /\ (includes [92] path = false -> includes [47] path = false ->
      getFileNameFromPath path = path).
Proof.
  split; [|split; [|split]].
  - destruct (getFileNameFromPath_shape path) as (dir & Hp & _ & Hd).
    exists dir. split; [exact Hp|].
    destruct Hd as [-> | (d & ->)]; [left; reflexivity|]. right. exists d.
    destruct (includes [92] path); auto.
  - apply getFileNameFromPath_no_backslash.
  - intros E. destruct (getFileNameFromPath_shape path) as (dir & _ & Hf & _).
    rewrite E in Hf. exact Hf.
  - intros E92 E47. apply getFileNameFromPath_plain.
    + intros H. apply includes_unit in H. congruence.
    + intros H. apply includes_unit in H. congruence.
Qed.

(** [normalizePath] keeps the length, leaves no separator of the other
    platform, and does nothing to a path it has produced; the file name of a
    normalized path contains neither kind of separator. *)
Theorem normalized_path_single_separator (isWindows : bool)
  (path : jsstring) :
  length (normalizePath isWindows path) = length path
  /\ ((if isWindows then 47 else 92) ∉ normalizePath isWindows path)
  /\ normalizePath isWindows (normalizePath isWindows path)
     = normalizePath isWindows path
  /\ (47 ∉ getFileNameFromPath (normalizePath isWindows path))
  /\ (92 ∉ getFileNameFromPath (normalizePath isWindows path)).
Proof.
  assert (Hfree : (if isWindows then 47 else 92) ∉ normalizePath isWindows path).
  { unfold normalizePath. destruct isWindows; apply replace_all_free; discriminate. }
  split; [unfold normalizePath, replace_all; destruct isWindows; apply length_map|].
  split; [exact Hfree|].
  split; [unfold normalizePath; destruct isWindows;
          apply replace_all_idem; discriminate|].
  split; [|apply getFileNameFromPath_no_backslash].
  destruct (getFileNameFromPath_shape (normalizePath isWindows path))
    as (dir & Hp & Hf & _).
  destruct isWindows.
  - intros Hin. apply Hfree. rewrite Hp. apply elem_of_app. right. exact Hin.
  - destruct (includes [92] (normalizePath false path)) eqn:E; [|exact Hf].
    apply includes_unit in E. contradiction.
Qed.

End PathFacts.

(** ** The chat input: file picker, uploads, submission *)

Section ChatInputFacts.

Import ChatInput.

Local Open Scope Z_scope.

Lemma at_query_Some (t q : jsstring) :
  at_query t = Some q ->
  exists pre, t = pre ++ 64%N :: q
              /\ forallb (fun x => negb (is_ws x)) q = true.
Proof.
  induction t as [|c t IH]; simpl; [discriminate|].
  destruct ((c =? 64)%N && forallb (fun x => negb (is_ws x)) t) eqn:E.
  - intros H. injection H as <-. apply andb_true_iff in E as [Hc Hq].
    apply N.eqb_eq in Hc. subst c. exists []. auto.
  - intros H. destruct (IH H) as (pre & -> & Hq). exists (c :: pre). auto.
Qed.

Lemma at_query_None (t : jsstring) :
  at_query t = None ->
  forall pre r, t = pre ++ 64%N :: r ->
                forallb (fun x => negb (is_ws x)) r = false.
Proof.
  induction t as [|c t IH]; simpl; intros H pre r Ht.
  - destruct pre; discriminate.
  - destruct ((c =? 64)%N && forallb (fun x => negb (is_ws x)) t) eqn:E;
      [discriminate|].
    destruct pre as [|x pre]; simpl in Ht; injection Ht as -> ->.
    + rewrite N.eqb_refl in E. exact E.
    + apply (IH H pre r). reflexivity.
Qed.

Lemma at_query_after_blank (t : jsstring) (c : N) :
  is_ws c = true -> c <> 64%N -> at_query (t ++ [c]) = None.
Proof.
  intros Hw Hc. induction t as [|x t IH]; simpl.
  - destruct (N.eqb_spec c 64); [contradiction | reflexivity].
  - rewrite forallb_app. simpl. rewrite Hw. simpl.
    rewrite !andb_false_r. exact IH.
Qed.

(** Typing in the textarea: when the text before the cursor ends in an "@"
    followed only by non-blank units, the picker opens with the index reset
    to 0, the recorded position is that of this "@" in the text, and the
    query is what lies between it and the cursor; otherwise the picker is
    closed with position -1, and every "@" before the cursor is followed by
    a blank.  The message is set to the typed value in both cases. *)
Theorem mention_detection (value : jsstring) (cursorPos : nat) (pk : Picker) :
  (cursorPos <= length value)%nat ->
  let r := handleTextareaChange value cursorPos pk in
  fst (fst r) = value
  /\ fileSearchResults (snd (fst r)) = fileSearchResults pk
  /\ match snd r with
     | Some query =>
         showFileAutocomplete (snd (fst r)) = true
         /\ selectedFileIndex (snd (fst r)) = 0
         /\ 0 <= atSymbolStart (snd (fst r))
         /\ value !! Z.to_nat (atSymbolStart (snd (fst r))) = Some 64%N
         /\ take cursorPos value
            = take (Z.to_nat (atSymbolStart (snd (fst r)))) value
              ++ 64%N :: query
         /\ forallb (fun x => negb (is_ws x)) query = true
     | None =>
         showFileAutocomplete (snd (fst r)) = false
         /\ atSymbolStart (snd (fst r)) = -1
         /\ forall pre rest,
              take cursorPos value = pre ++ 64%N :: rest ->
              forallb (fun x => negb (is_ws x)) rest = false
     end.
Proof.
  intros Hc r. subst r. unfold handleTextareaChange.
  destruct (at_query (take cursorPos value)) as [q|] eqn:E; cbn [fst snd].
  - split; [reflexivity|]. split; [reflexivity|].
    destruct (at_query_Some _ _ E) as (pre & Ht & Hq).
    assert (Hlen : length (take cursorPos value) = cursorPos)
      by (rewrite length_take; lia).
    rewrite Ht, length_app in Hlen. simpl in Hlen.
    cbn [showFileAutocomplete selectedFileIndex atSymbolStart].
    assert (Hpos : Z.to_nat (Z.of_nat cursorPos - Z.of_nat (length q) - 1)
                   = length pre) by lia.
    rewrite Hpos.
    assert (Hpre : take (length pre) value = pre).
    { replace (length pre) with (Nat.min (length pre) cursorPos) at 1 by lia.
      rewrite <- take_take, Ht. apply take_app_length. }
    split; [reflexivity|]. split; [reflexivity|]. split; [lia|]. split.
    + assert (Hl : take cursorPos value !! length pre = Some 64%N).
      { rewrite Ht. rewrite list_lookup_middle; reflexivity. }
      rewrite lookup_take_lt in Hl by lia. exact Hl.
    + rewrite Hpre. split; [exact Ht | exact Hq].
  - split; [reflexivity|]. split; [reflexivity|].
    split; [reflexivity|]. split; [reflexivity|].
    apply at_query_None, E.
Qed.

Lemma mention_detection_witness :
  snd (handleTextareaChange typed_mention 12
         {| showFileAutocomplete := false; fileSearchResults := [];
            selectedFileIndex := 3; atSymbolStart := -1 |})
  = Some (lit "src/ma")
  /\ atSymbolStart
       (snd (fst (handleTextareaChange typed_mention 12
                    {| showFileAutocomplete := false; fileSearchResults := [];
                       selectedFileIndex := 3; atSymbolStart := -1 |})))
     = 5.
Proof.
  pose proof (mention_detection typed_mention 12
                {| showFileAutocomplete := false; fileSearchResults := [];
                   selectedFileIndex := 3; atSymbolStart := -1 |}) as H.
  assert (Hc : (12 <= length typed_mention)%nat) by (vm_compute; lia).
  specialize (H Hc). destruct H as (_ & _ & _).
  split; vm_compute; reflexivity.
Defined.

(** Choosing a file from the picker, right after the picker was opened by
    typing: the "@" and the query are replaced by "@", the file's path and a
    space; what stood before the "@" and after the cursor is kept; the
    picker closes; and at the cursor position set afterwards no "@" query is
    found, so the picker does not open again by itself. *)
Theorem file_selection_replaces_query (value : jsstring) (cursorPos : nat)
  (pk : Picker) (file : FileItem) :
  (cursorPos <= length value)%nat ->
  snd (handleTextareaChange value cursorPos pk) <> None ->
  let opened := handleTextareaChange value cursorPos pk in
  let r := handleFileSelect file (Some cursorPos) (fst (fst opened))
             (snd (fst opened)) in
  exists pre query,
    take cursorPos value = pre ++ 64%N :: query
    /\ fst (fst r) = pre ++ 64%N :: fi_path file ++ 32%N :: drop cursorPos value
    /\ snd r = Some (Z.of_nat (length pre + length (fi_path file) + 2))
    /\ showFileAutocomplete (snd (fst r)) = false
    /\ atSymbolStart (snd (fst r)) = -1
    /\ at_query (take (length pre + length (fi_path file) + 2) (fst (fst r)))
       = None.
Proof.
  intros Hc Hsome opened r. subst r opened.
  unfold handleTextareaChange in *.
  destruct (at_query (take cursorPos value)) as [q|] eqn:E; [|contradiction].
  cbn [fst snd]. destruct (at_query_Some _ _ E) as (pre & Ht & Hq).
  assert (Hlen : length (take cursorPos value) = cursorPos)
    by (rewrite length_take; lia).
  rewrite Ht, length_app in Hlen. simpl in Hlen.
  exists pre, q. split; [exact Ht|].
  unfold handleFileSelect. cbn [atSymbolStart fileSearchResults selectedFileIndex].
  assert (Hpos : Z.of_nat cursorPos - Z.of_nat (length q) - 1
                 = Z.of_nat (length pre)) by lia.
  rewrite Hpos.
  destruct (Z.eqb_spec (Z.of_nat (length pre)) (-1)); [lia|].
  cbn [fst snd showFileAutocomplete atSymbolStart].
  rewrite Nat2Z.id, Ht, take_app_length.
  split; [reflexivity|]. split; [f_equal; lia|].
  split; [reflexivity|]. split; [reflexivity|].
  assert (Hcut : take (length pre + length (fi_path file) + 2)
                   (pre ++ 64%N :: fi_path file ++ 32%N :: drop cursorPos value)
                 = (pre ++ 64%N :: fi_path file) ++ [32%N]).
  { replace (pre ++ 64%N :: fi_path file ++ 32%N :: drop cursorPos value)
      with (((pre ++ 64%N :: fi_path file) ++ [32%N]) ++ drop cursorPos value)
      by (rewrite <- !app_assoc; simpl; rewrite <- ?app_assoc; reflexivity).
    apply take_app_length'. rewrite !length_app. simpl. lia. }
  rewrite Hcut. apply at_query_after_blank; [reflexivity | discriminate].
Qed.

Lemma file_selection_replaces_query_witness :
  fst (fst (handleFileSelect
              {| fi_path := lit "src/main.py"; fi_type := lit "file";
                 fi_name := lit "main.py" |}
              (Some 12%nat) typed_mention
              (snd (fst (handleTextareaChange typed_mention 12
                           {| showFileAutocomplete := false;
                              fileSearchResults := [];
                              selectedFileIndex := 0;
                              atSymbolStart := -1 |})))))
  = lit "open @src/main.py  and run".
Proof.
  destruct (file_selection_replaces_query typed_mention 12
              {| showFileAutocomplete := false; fileSearchResults := [];
                 selectedFileIndex := 0; atSymbolStart := -1 |}
              {| fi_path := lit "src/main.py"; fi_type := lit "file";
                 fi_name := lit "main.py" |})
    as (pre & q & _ & _ & _).
  - vm_compute. lia.
  - vm_compute. discriminate.
  - vm_compute. reflexivity.
Defined.

(** With the picker open on a non-empty result list and the index inside
    the list, ArrowDown and ArrowUp keep the index inside the list, wrap
    around at the ends, undo each other, and Enter (without Shift) selects a
    file that exists instead of submitting. *)
Theorem picker_arrows_stay_in_range (pk : Picker) (shift : bool) :
  showFileAutocomplete pk = true ->
  0 <= selectedFileIndex pk < Z.of_nat (length (fileSearchResults pk)) ->
  let len := Z.of_nat (length (fileSearchResults pk)) in
  let down := fst (handleKeyDown (lit "ArrowDown") shift pk) in
  let up := fst (handleKeyDown (lit "ArrowUp") shift pk) in
  (0 <= selectedFileIndex down < len)
  /\ (0 <= selectedFileIndex up < len)
  /\ selectedFileIndex down
     = (if selectedFileIndex pk =? len - 1 then 0 else selectedFileIndex pk + 1)
  /\ selectedFileIndex up
     = (if selectedFileIndex pk =? 0 then len - 1 else selectedFileIndex pk - 1)
  /\ selectedFileIndex (fst (handleKeyDown (lit "ArrowUp") shift down))
     = selectedFileIndex pk
  /\ selectedFileIndex (fst (handleKeyDown (lit "ArrowDown") shift up))
     = selectedFileIndex pk
  /\ exists file,
       snd (handleKeyDown (lit "Enter") false pk) = KeySelect (Some file)
       /\ fileSearchResults pk !! Z.to_nat (selectedFileIndex pk) = Some file.
Proof.
  intros Hshow Hidx len down up. subst down up.
  assert (Hlen : (0 <? len) = true) by (apply Z.ltb_lt; lia).
  assert (Hsel : exists file,
             fileSearchResults pk !! Z.to_nat (selectedFileIndex pk) = Some file).
  { assert (is_Some (fileSearchResults pk !! Z.to_nat (selectedFileIndex pk)))
      as [f Hf] by (apply lookup_lt_is_Some_2; unfold len in *; lia).
    exists f. exact Hf. }
  unfold handleKeyDown. fold len. rewrite Hshow, Hlen.
  change (str_eqb (lit "ArrowDown") (lit "ArrowDown")) with true.
  change (str_eqb (lit "ArrowUp") (lit "ArrowDown")) with false.
  change (str_eqb (lit "ArrowUp") (lit "ArrowUp")) with true.
  change (str_eqb (lit "Enter") (lit "ArrowDown")) with false.
  change (str_eqb (lit "Enter") (lit "ArrowUp")) with false.
  change (str_eqb (lit "Enter") (lit "Enter")) with true.
  cbn [andb negb fst snd set_selectedFileIndex selectedFileIndex
       showFileAutocomplete fileSearchResults].
  fold len. rewrite Hshow, Hlen. cbn [andb fst selectedFileIndex].
  assert (Hsel' : exists file,
             KeySelect (result_at pk) = KeySelect (Some file)
             /\ fileSearchResults pk !! Z.to_nat (selectedFileIndex pk)
                = Some file).
  { destruct Hsel as (f & Hf). exists f. unfold result_at.
    destruct (Z.ltb_spec (selectedFileIndex pk) 0); [lia|].
    rewrite Hf. auto. }
  destruct (Z.ltb_spec (selectedFileIndex pk) (len - 1));
    destruct (Z.ltb_spec 0 (selectedFileIndex pk));
    destruct (Z.eqb_spec (selectedFileIndex pk) (len - 1));
    destruct (Z.eqb_spec (selectedFileIndex pk) 0); try lia;
    repeat match goal with
           | |- context [Z.ltb ?a ?b] => destruct (Z.ltb_spec a b); try lia
           end;
    (cbn [selectedFileIndex set_selectedFileIndex];
     split; [lia|]; split; [lia|]; split; [lia|]; split; [lia|];
     split; [lia|]; split; [lia | exact Hsel']).
Qed.

Lemma picker_arrows_stay_in_range_witness :
  selectedFileIndex (fst (handleKeyDown (lit "ArrowDown") false open_picker)) = 0
  /\ selectedFileIndex (fst (handleKeyDown (lit "ArrowUp") false open_picker)) = 0.
Proof.
  assert (H : 0 <= selectedFileIndex open_picker
              < Z.of_nat (length (fileSearchResults open_picker)))
    by (vm_compute; split; [discriminate | reflexivity]).
  destruct (picker_arrows_stay_in_range open_picker false eq_refl H)
    as (_ & _ & Hd & Hu & _).
  split; [exact Hd | exact Hu].
Defined.

Lemma uploadLoop_spec (assets : jsstring) (files : list (File * UploadEnv))
  (acc : list UploadedFile) :
  exists done rest,
    files = done ++ rest
    /\ fst (fst (uploadLoop assets files acc))
       = acc ++ omap (succeeded assets) done
    /\ Forall (fun fe => isSupported (fst fe) = true ->
                         uploaded_ok (snd fe) = true) done
    /\ snd (fst (uploadLoop assets files acc))
       = List.map UploadPost (supported_names done)
         ++ match rest with
            | [] => []
            | fe :: _ => [UploadPost (f_name (fst fe))]
            end
    /\ snd (uploadLoop assets files acc)
       = match rest with [] => false | _ :: _ => true end
    /\ match rest with
       | [] => True
       | fe :: _ => isSupported (fst fe) = true /\ uploaded_ok (snd fe) = false
       end.
Proof.
  revert acc. induction files as [|[file env] files IH]; intros acc.
  - exists [], []. simpl. rewrite app_nil_r. repeat split; constructor.
  - simpl. destruct (isSupported file) eqn:Hs; simpl.
    + destruct (up_answer env) as [|[] result] eqn:Ha.
      * exists [], ((file, env) :: files). simpl. rewrite app_nil_r.
        unfold uploaded_ok. rewrite Ha. repeat split; auto.
      * destruct (IH (acc ++ [newFile assets env result]))
          as (done & rest & -> & Hacc & Hok & Hes & Hf & Hr).
        destruct (uploadLoop assets (done ++ rest) _) as [[acc' es] failed].
        simpl in *. exists ((file, env) :: done), rest.
        split; [reflexivity|]. split.
        { rewrite Hacc. unfold succeeded at 2. simpl. rewrite Hs, Ha.
          rewrite <- app_assoc. reflexivity. }
        split.
        { constructor; [|exact Hok]. intros _. unfold uploaded_ok.
          simpl. rewrite Ha. reflexivity. }
        split.
        { unfold supported_names. simpl. rewrite Hs. simpl. f_equal. exact Hes. }
        split; assumption.
      * exists [], ((file, env) :: files). simpl. rewrite app_nil_r.
        unfold uploaded_ok. rewrite Ha. repeat split; auto.
    + destruct (IH acc) as (done & rest & -> & Hacc & Hok & Hes & Hf & Hr).
      exists ((file, env) :: done), rest.
      split; [reflexivity|]. split.
      { rewrite Hacc. unfold succeeded at 2. simpl. rewrite Hs. reflexivity. }
      split.
      { constructor; [|exact Hok]. simpl. congruence. }
      split.
      { unfold supported_names. simpl. rewrite Hs. exact Hes. }
      split; assumption.
Qed.

(** Uploading a batch of files: the files are taken in order; an
    unsupported file is skipped without a request; each supported file is
    posted and, when the upload succeeds, appended to the attachments; the
    first failed upload ends the batch with one alert, the attachments made
    before it are kept and the files after it are not posted.  The message
    being typed is not touched, and without a project nothing happens. *)
Theorem upload_batch_in_order (projectId : option jsstring)
  (assets : jsstring) (files : list (File * UploadEnv)) (st : State) :
  let r := handleFiles projectId assets files st in
  message (fst r) = message st
  /\ if truthy_opt projectId then
       exists done rest,
         files = done ++ rest
         /\ uploadedImages (fst r)
            = uploadedImages st ++ omap (succeeded assets) done
         /\ Forall (fun fe => isSupported (fst fe) = true ->
                              uploaded_ok (snd fe) = true) done
         /\ snd r
            = List.map UploadPost (supported_names done)
              ++ match rest with
                 | [] => []
                 | fe :: _ => [UploadPost (f_name (fst fe)); UploadAlert]
                 end
         /\ match rest with
            | [] => True
            | fe :: _ =>
                isSupported (fst fe) = true /\ uploaded_ok (snd fe) = false
            end
     else r = (st, []).
Proof.
  intros r. subst r. unfold handleFiles.
  destruct (truthy_opt projectId); simpl; [|split; reflexivity].
  destruct (uploadLoop_spec assets files (uploadedImages st))
    as (done & rest & Hfiles & Hacc & Hok & Hes & Hf & Hr).
  destruct (uploadLoop assets files (uploadedImages st)) as [[imgs es] failed].
  simpl in *. split; [reflexivity|].
  exists done, rest. split; [exact Hfiles|]. split; [exact Hacc|].
  split; [exact Hok|]. split; [|exact Hr].
  rewrite Hes, Hf. destruct rest; simpl; rewrite <- ?app_assoc; reflexivity.
Qed.

Lemma isSupported_by_type (file : File) :
  startsWith (lit "image/") (f_type file)
  || str_eqb (f_type file) (lit "text/csv")
  || str_eqb (f_type file) (lit "application/csv")
  || str_eqb (f_type file) (lit "text/plain") = true ->
  isSupported file = true.
Proof.
  unfold isSupported. intros H.
  repeat match type of H with
         | (_ || _) = true => apply orb_true_iff in H as [H|H]
         end; rewrite H; rewrite ?orb_true_r; reflexivity.
Qed.

(** Pasting from the clipboard: every file that [handlePaste] hands on comes
    from an item of the clipboard, in clipboard order, and, when the file
    has the type of its item, the upload does not skip it as unsupported. *)
Theorem pasted_files_are_supported (items : list ClipboardItem) :
  Forall (fun item => match item_file item with
                      | Some f => f_type f = item_type item
                      | None => True
                      end) items ->
  Forall (fun f => isSupported f = true) (pastedFiles items)
  /\ sublist (pastedFiles items) (omap item_file items).
Proof.
  intros H. induction H as [|item items Hitem _ [IH1 IH2]]; simpl.
  - split; constructor.
  - unfold pastedFiles in *. simpl.
    destruct (startsWith (lit "image/") (item_type item)
              || str_eqb (item_type item) (lit "text/csv")
              || str_eqb (item_type item) (lit "application/csv")
              || str_eqb (item_type item) (lit "text/plain")) eqn:E.
    + destruct (item_file item) as [f|]; simpl; [|split; assumption].
      split; [|apply sublist_skip; exact IH2].
      constructor; [|exact IH1].
      apply isSupported_by_type. rewrite Hitem. exact E.
    + split; [exact IH1|].
      destruct (item_file item); [apply sublist_cons|]; exact IH2.
Qed.

Lemma pasted_files_are_supported_witness :
  Forall (fun f => isSupported f = true) (pastedFiles clipboard_png).
Proof.
  apply (pasted_files_are_supported clipboard_png).
  repeat constructor.
Defined.

(** A submission from the chat input is never blank: when [handleSubmit]
    calls [onSendMessage] the input is enabled, the text sent has a unit
    that is not blank (the trimmed message, or the default text when only
    attachments were given), all attachments go along and the input is
    emptied; when it does not, the input is left as it is, and either it is
    disabled or there was neither text nor attachment. *)
Theorem submit_sends_nothing_blank (disabled : bool) (st : State) :
  match handleSubmit disabled st with
  | (st', Some (m, imgs)) =>
      disabled = false
      /\ truthy (trim m) = true
      /\ imgs = uploadedImages st
      /\ st' = {| message := []; uploadedImages := [] |}
      /\ (m = trim (message st)
          \/ m = default_file_message /\ trim (message st) = []
             /\ uploadedImages st <> [])
  | (st', None) =>
      st' = st
      /\ (disabled = true
          \/ trim (message st) = [] /\ uploadedImages st = [])
  end.
Proof.
  unfold handleSubmit.
  destruct (truthy (trim (message st))) eqn:Ht;
    destruct (uploadedImages st) as [|f fs] eqn:Hu;
    destruct disabled; simpl; auto.
  - unfold or_else. rewrite Ht, trim_idem, Ht. auto 6.
  - unfold or_else. rewrite Ht, trim_idem, Ht. auto 6.
  - split; [reflexivity|]. right. apply truthy_false_nil in Ht. auto.
  - unfold or_else. rewrite Ht.
    split; [reflexivity|]. split; [reflexivity|]. split; [reflexivity|].
    split; [reflexivity|]. right. apply truthy_false_nil in Ht.
    split; [reflexivity|]. split; [exact Ht | discriminate].
Qed.

End ChatInputFacts.

(** ** The chat page: requests, preview timers, tree and settings *)

Section ChatPageFacts.

Import ChatPage.

Lemma finalMessage_nonblank (m : Mode) (fm : jsstring) (imgs : list ImageObj)
  (x : jsstring) :
  finalMessage_of m fm imgs = Some x -> truthy (trim x) = true.
Proof.
  unfold finalMessage_of.
  destruct (truthy (trim fm)) eqn:Ht; simpl.
  - intros H. injection H as <-.
    destruct m; [exact Ht | apply truthy_trim_app_l, Ht].
  - destruct (Nat.eqb (length imgs) 0); simpl; [discriminate|].
    intros H. injection H as <-. destruct m; vm_compute; reflexivity.
Qed.

Lemma finalMessage_refused (m : Mode) (fm : jsstring) (imgs : list ImageObj) :
  finalMessage_of m fm imgs = None -> trim fm = [] /\ imgs = [].
Proof.
  unfold finalMessage_of.
  destruct (truthy (trim fm)) eqn:Ht; simpl; [discriminate|].
  destruct imgs; simpl; [|discriminate].
  intros _. split; [apply truthy_false_nil, Ht | reflexivity].
Qed.

(** [runAct] either posts exactly one request or only alerts.  A request
    that is posted has an instruction with a unit that is not blank, the
    request id given, the continuation mark, and one image entry per image;
    afterwards [isRunning] is false, and the prompt, the images and the
    session id of the page change only when the answer is ok.  When nothing
    is posted the text was blank and there was no image, and the state is
    untouched. *)
Theorem runAct_posts_wellformed_request (mo : option jsstring)
  (ei : option (list ImageObj)) (rid : jsstring)
  (answer : Fetched ChatReply) (st : RunState) :
  let r := runAct mo ei rid answer st in
  let imgs := match ei with
              | Some l => l
              | None => List.map local_as_any (uploadedImages st)
              end in
  match sent_body (snd r) with
  | Some body =>
      truthy (trim (instruction body)) = true
      /\ request_id body = rid
      /\ is_initial_prompt body = false
      /\ length (images body) = length imgs
      /\ posts_to any_endpoint (snd r) = 1%nat
      /\ isRunning (fst r) = false
      /\ match answer with
         | Response true reply =>
             prompt (fst r) = [] /\ uploadedImages (fst r) = []
             /\ sessionId (fst r) = opt_or_else (reply_session_id reply) []
         | _ => fst r = setIsRunning false st
         end
  | None =>
      r = (st, [Alert AlertNeedInput])
      /\ trim (opt_or_else mo (prompt st)) = [] /\ imgs = []
  end.
Proof.
  intros r imgs. subst r.
  destruct (finalMessage_of (mode st) (opt_or_else mo (prompt st)) imgs)
    as [fm|] eqn:E.
  - unfold runAct. fold imgs. rewrite E.
    pose proof (finalMessage_nonblank _ _ _ _ E) as Hnb.
    destruct answer as [|[] reply]; cbn [sent_body snd fst omap head];
      simpl; rewrite ?length_map;
      (split; [exact Hnb|]); (split; [reflexivity|]);
      (split; [reflexivity|]); (split; [reflexivity|]).
    + repeat split.
    + assert (Hz : forall l : list LocalImage,
                 List.filter (fun e => match e with
                                       | HttpPost t _ => any_endpoint t
                                       | _ => false
                                       end)
                   (List.map (fun img => RevokeObjectURL (li_url img)) l) = []).
      { induction l; simpl; auto. }
      split; [unfold posts_to; simpl; rewrite Hz; reflexivity|].
      split; [reflexivity|].
      destruct (uploadedImages st) eqn:Hu; simpl; rewrite ?Hu; auto.
    + repeat split.
  - rewrite (runAct_refused mo ei rid answer st E). simpl.
    split; [reflexivity|]. apply (finalMessage_refused _ _ _ E).
Qed.

(** What [start] and [stop] leave alone. *)
Lemma stop_keeps_marks (net : Net) (st : PreviewState) :
  agentWorkComplete (fst (stop net st)) = agentWorkComplete st
  /\ hasInitialPrompt (fst (stop net st)) = hasInitialPrompt st.
Proof. unfold stop. destruct (preview_stop net); split; reflexivity. Qed.

Lemma start_seen_keeps_marks (b : bool) (url : jsstring) (net : Net)
  (st : PreviewState) :
  agentWorkComplete (fst (start_seen b url net st)) = agentWorkComplete st
  /\ hasInitialPrompt (fst (start_seen b url net st)) = hasInitialPrompt st.
Proof.
  unfold start_seen. destruct b; [apply stop_keeps_marks|].
  destruct (truthy url); [split; reflexivity|].
  destruct (preview_start net) as [|[] u]; split; reflexivity.
Qed.

Lemma start_seen_storage_free (b : bool) (url : jsstring) (net : Net)
  (st : PreviewState) :
  List.filter is_storage_set (snd (start_seen b url net st)) = []
  /\ (posts_to is_preview_start (snd (start_seen b url net st)) <= 1)%nat.
Proof.
  unfold start_seen, stop, posts_to. destruct b.
  - destruct (preview_stop net); simpl; split; auto.
  - destruct (truthy url); [simpl; split; auto|].
    destruct (preview_start net) as [|[] u]; simpl; split; auto.
Qed.

(** One call of the callback: it writes the mark (and then calls [start])
    exactly when it is told that the session is idle and its render saw an
    initial prompt, no mark and no preview URL. *)
Lemma onSessionStatusChange_fires (projectId : jsstring)
  (seen : PreviewState) (v : bool) (net : Net) (st : PreviewState) :
  let r := onSessionStatusChange projectId seen v net st in
  let fired := negb v && hasInitialPrompt seen
               && negb (agentWorkComplete seen)
               && negb (truthy_opt (previewUrl seen)) in
  length (List.filter is_storage_set (snd r)) = (if fired then 1 else 0)%nat
  /\ (posts_to is_preview_start (snd r)
      <= length (List.filter is_storage_set (snd r)))%nat
  /\ agentWorkComplete (fst r) = fired || agentWorkComplete st.
Proof.
  unfold onSessionStatusChange.
  destruct (negb v && hasInitialPrompt seen && negb (agentWorkComplete seen)
            && negb (truthy_opt (previewUrl seen))) eqn:E.
  - match goal with
    | |- context [start_seen ?b [] net ?s] =>
        destruct (start_seen_keeps_marks b [] net s) as [Hk _];
        destruct (start_seen_storage_free b [] net s) as [Hf Hp];
        destruct (start_seen b [] net s) as [s' es]
    end.
    simpl in *. rewrite Hf, Hk. unfold posts_to in *. simpl.
    split; [reflexivity|]. split; [lia | reflexivity].
  - simpl. unfold posts_to. simpl. split; [reflexivity|].
    split; [lia | reflexivity].
Qed.

Lemma run_preview_timer_keeps_mark (cb : TimerCallback) (st : PreviewState) :
  agentWorkComplete (run_preview_timer cb st) = agentWorkComplete st.
Proof. destruct cb; reflexivity. Qed.

(** One event: how many marks it writes, and what becomes of the mark in
    the current state and in the state the callback sees. *)
Lemma status_step_facts (projectId : jsstring) (ev : StatusEvent)
  (pg : RenderedPage) :
  let r := status_step projectId ev pg in
  let n := length (List.filter is_storage_set (snd r)) in
  (n <= match ev with
        | SessionStatus false _ =>
            if agentWorkComplete (seen_state pg) then 0 else 1
        | _ => 0
        end)%nat
  /\ (posts_to is_preview_start (snd r) <= n)%nat
  /\ (agentWorkComplete (current_state pg) = true \/ (0 < n)%nat ->
      agentWorkComplete (current_state (fst r)) = true)
  /\ agentWorkComplete (seen_state (fst r))
     = match ev with
       | Rerender => agentWorkComplete (current_state pg)
       | _ => agentWorkComplete (seen_state pg)
       end.
Proof.
  destruct ev as [|v net|cb]; simpl.
  - unfold posts_to. simpl. split; [lia|]. split; [lia|].
    split; [|reflexivity]. intros [H|H]; [exact H | lia].
  - destruct (onSessionStatusChange_fires projectId (seen_state pg) v net
                (current_state pg)) as (H1 & H2 & H3).
    destruct (onSessionStatusChange projectId (seen_state pg) v net
                (current_state pg)) as [st es].
    simpl in *. rewrite H1 in *. rewrite H3.
    split; [|split; [exact H2|split; [|reflexivity]]].
    + destruct v, (hasInitialPrompt (seen_state pg)),
        (agentWorkComplete (seen_state pg)),
        (truthy_opt (previewUrl (seen_state pg))); simpl; lia.
    + intros [H|H]; [rewrite H; apply orb_true_r|].
      destruct (negb v && _ && _ && _); [reflexivity | lia].
  - unfold posts_to. simpl. split; [lia|]. split; [lia|].
    split; [|reflexivity]. rewrite run_preview_timer_keeps_mark.
    intros [H|H]; [exact H | lia].
Qed.

(** Once a render has seen the mark, no call writes it or starts a preview
    any more. *)
Lemma status_run_settled (projectId : jsstring) (evs : list StatusEvent)
  (pg : RenderedPage) :
  agentWorkComplete (seen_state pg) = true ->
  agentWorkComplete (current_state pg) = true ->
  List.filter is_storage_set (snd (status_run projectId evs pg)) = []
  /\ posts_to is_preview_start (snd (status_run projectId evs pg)) = 0%nat.
Proof.
  revert pg. induction evs as [|ev evs IH]; intros pg Hs Hc; simpl.
  - split; reflexivity.
  - destruct (status_step_facts projectId ev pg) as (H1 & H2 & H3 & H4).
    destruct (status_step projectId ev pg) as [pg1 es1]. simpl in *.
    destruct (IH pg1) as [I1 I2].
    + rewrite H4. destruct ev; assumption.
    + apply H3. left. exact Hc.
    + destruct (status_run projectId evs pg1) as [pg2 es2]. simpl in *.
      assert (Hz : length (List.filter is_storage_set es1) = 0%nat)
        by (rewrite Hs in H1; destruct ev as [|[]|]; lia).
      unfold posts_to in *. rewrite !List.filter_app, length_app, I1.
      apply length_zero_iff_nil in Hz. rewrite Hz. split; [reflexivity|].
      rewrite Hz in H2. simpl in H2. lia.
Qed.

(** Once the mark is set in the current state, only the calls that reach
    the render already on screen can write it again. *)
Lemma status_run_marked (projectId : jsstring) (evs : list StatusEvent)
  (pg : RenderedPage) :
  agentWorkComplete (current_state pg) = true ->
  (length (List.filter is_storage_set (snd (status_run projectId evs pg)))
   <= idle_calls_before_render evs)%nat.
Proof.
  revert pg. induction evs as [|ev evs IH]; intros pg Hc; simpl.
  - lia.
  - destruct (status_step_facts projectId ev pg) as (H1 & _ & H3 & H4).
    pose proof (status_run_settled projectId evs
                  (fst (status_step projectId ev pg))) as Hset.
    specialize (IH (fst (status_step projectId ev pg))).
    destruct (status_step projectId ev pg) as [pg1 es1]. simpl in *.
    assert (Hc1 : agentWorkComplete (current_state pg1) = true)
      by (apply H3; left; exact Hc).
    specialize (IH Hc1).
    destruct (status_run projectId evs pg1) as [pg2 es2]. simpl in *.
    rewrite List.filter_app, length_app.
    destruct ev as [|v net|cb].
    + destruct Hset as [Hz _]; [rewrite H4; exact Hc | exact Hc1|].
      rewrite Hz. simpl. lia.
    + destruct v; destruct (agentWorkComplete (seen_state pg)); lia.
    + lia.
Qed.

Lemma status_run_posts (projectId : jsstring) (evs : list StatusEvent)
  (pg : RenderedPage) :
  (posts_to is_preview_start (snd (status_run projectId evs pg))
   <= length (List.filter is_storage_set
                (snd (status_run projectId evs pg))))%nat.
Proof.
  revert pg. induction evs as [|ev evs IH]; intros pg; simpl.
  - unfold posts_to. simpl. lia.
  - destruct (status_step_facts projectId ev pg) as (_ & H2 & _).
    specialize (IH (fst (status_step projectId ev pg))).
    destruct (status_step projectId ev pg) as [pg1 es1]. simpl in IH, H2.
    destruct (status_run projectId evs pg1) as [pg2 es2]. simpl in *.
    unfold posts_to in *. rewrite !List.filter_app, !length_app. lia.
Qed.

Lemma status_run_bounded (projectId : jsstring) (evs : list StatusEvent)
  (pg : RenderedPage) :
  (length (List.filter is_storage_set (snd (status_run projectId evs pg)))
   <= most_idle_calls_per_render evs)%nat.
Proof.
  revert pg. induction evs as [|ev evs IH]; intros pg.
  - simpl. lia.
  - change (most_idle_calls_per_render (ev :: evs))
      with (Nat.max (idle_calls_before_render (ev :: evs))
              (most_idle_calls_per_render evs)).
    simpl status_run.
    destruct (status_step_facts projectId ev pg) as (H1 & _ & H3 & _).
    pose proof (status_run_marked projectId evs
                  (fst (status_step projectId ev pg))) as Hm.
    specialize (IH (fst (status_step projectId ev pg))).
    destruct (status_step projectId ev pg) as [pg1 es1]. simpl fst in *.
    simpl snd in *.
    destruct (status_run projectId evs pg1) as [pg2 es2]. simpl snd in *.
    rewrite List.filter_app, length_app.
    destruct (length (List.filter is_storage_set es1)) as [|n] eqn:En.
    + simpl. lia.
    + assert (Hc1 : agentWorkComplete (current_state pg1) = true)
        by (apply H3; right; lia).
      specialize (Hm Hc1).
      destruct ev as [|[] net|cb]; simpl in *; try lia.
      destruct (agentWorkComplete (seen_state pg)); lia.
Qed.

(** The session status callback over the life of the page: it starts a
    preview only together with writing the completion mark; the mark is
    written at most as often as the largest number of idle calls that reach
    one and the same render, so at most once when the page renders again
    between two calls; and never once a render has seen the mark. *)
Theorem session_status_starts_per_render (projectId : jsstring)
  (evs : list StatusEvent) (pg : RenderedPage) :
  let r := status_run projectId evs pg in
  (posts_to is_preview_start (snd r)
   <= length (List.filter is_storage_set (snd r)))%nat
  /\ (length (List.filter is_storage_set (snd r))
      <= most_idle_calls_per_render evs)%nat
  /\ (if agentWorkComplete (seen_state pg)
         && agentWorkComplete (current_state pg)
      then List.filter is_storage_set (snd r) = []
           /\ posts_to is_preview_start (snd r) = 0%nat
      else True).
Proof.
  intros r. subst r. split; [apply status_run_posts|].
  split; [apply status_run_bounded|].
  destruct (agentWorkComplete (seen_state pg)) eqn:Hs; [|exact I].
  destruct (agentWorkComplete (current_state pg)) eqn:Hc; [|exact I].
  apply status_run_settled; assumption.
Qed.

(** Two idle calls that reach the same render both start a preview; with a
    render between them only the first does. *)
Example two_calls_on_one_render :
  posts_to is_preview_start
    (snd (status_run (lit "p1")
            [SessionStatus false net_up; SessionStatus false net_up]
            (rendered first_task_page))) = 2%nat
  /\ posts_to is_preview_start
       (snd (status_run (lit "p1")
               [SessionStatus false net_up; Rerender;
                SessionStatus false net_up]
               (rendered first_task_page))) = 1%nat.
Proof. vm_compute. split; reflexivity. Qed.

Lemma timers_of_start (url : jsstring) (net : Net) (st : PreviewState) :
  recordInterruptState st = false ->
  timers_of (snd (start url net st))
  = [if truthy url then PreviewReady (Some url)
     else match preview_start net with
          | Response true u => PreviewReady u
          | _ => StartingDone
          end].
Proof.
  intros H. unfold start, start_seen. rewrite H. destruct (truthy url); [reflexivity|].
  destruct (preview_start net) as [|[] u]; reflexivity.
Qed.

(** A call of [start] without recorded interrupt sets the starting state
    and schedules one timer; no request is made when a URL is given.  When
    the timer has fired the starting state is over; the preview URL is the
    given URL, or the URL the server answered, and is left as it was when
    the request failed. *)
Theorem start_settles_after_timer (url : jsstring) (net : Net)
  (st : PreviewState) :
  recordInterruptState st = false ->
  let r := start url net st in
  let settled := fire_timers (snd r) (fst r) in
  isStartingPreview (fst r) = true
  /\ previewUrl (fst r) = previewUrl st
  /\ length (timers_of (snd r)) = 1%nat
  /\ posts_to any_endpoint (snd r) = (if truthy url then 0 else 1)%nat
  /\ isStartingPreview settled = false
  /\ previewUrl settled
     = (if truthy url then Some url
        else match preview_start net with
             | Response true u => u
             | _ => previewUrl st
             end)
  /\ recordInterruptState settled = false.
Proof.
  intros H r settled. subst settled r. unfold fire_timers.
  rewrite (timers_of_start url net st H).
  unfold start, start_seen. rewrite H.
  destruct (truthy url); [repeat split; auto|].
  destruct (preview_start net) as [|[] u]; repeat split; auto.
Qed.

Lemma start_settles_after_timer_witness :
  previewUrl
    (fire_timers (snd (start [] net_up (preview_state None false false)))
       (fst (start [] net_up (preview_state None false false))))
  = Some (lit "http://localhost:3000").
Proof.
  destruct (start_settles_after_timer [] net_up
              (preview_state None false false) eq_refl)
    as (_ & _ & _ & _ & _ & H & _).
  exact H.
Defined.

(** Toggling a folder twice gives the set of expanded folders back; one
    toggle flips the membership of that folder and of no other. *)
Theorem toggleFolder_involutive (path : jsstring) (prev : gset jsstring) :
  toggleFolder path (toggleFolder path prev) = prev
  /\ (path ∈ toggleFolder path prev <-> path ∉ prev)
  /\ (forall other, other <> path ->
        (other ∈ toggleFolder path prev <-> other ∈ prev)).
Proof.
  unfold toggleFolder. split; [|split].
  - destruct (decide (path ∈ prev)) as [Hin|Hin].
    + destruct (decide (path ∈ prev ∖ {[path]})) as [Hmem|Hmem].
      * apply elem_of_difference in Hmem as [_ Hmem].
        exfalso. apply Hmem, elem_of_singleton. reflexivity.
      * apply set_eq. intros x.
        rewrite elem_of_union, elem_of_difference, elem_of_singleton.
        destruct (decide (x = path)) as [->|Hne]; tauto.
    + destruct (decide (path ∈ prev ∪ {[path]})) as [Hmem|Hmem].
      * apply set_eq. intros x.
        rewrite elem_of_difference, elem_of_union, elem_of_singleton.
        destruct (decide (x = path)) as [->|Hne]; tauto.
      * exfalso. apply Hmem, elem_of_union. right.
        apply elem_of_singleton. reflexivity.
  - destruct (decide (path ∈ prev)) as [Hin|Hin].
    + rewrite elem_of_difference, elem_of_singleton. tauto.
    + rewrite elem_of_union, elem_of_singleton. tauto.
  - intros other Hne. destruct (decide (path ∈ prev)) as [Hin|Hin].
    + rewrite elem_of_difference, elem_of_singleton. tauto.
    + rewrite elem_of_union, elem_of_singleton. tauto.
Qed.

(** The routes offered for the dashboard: one per entry that
    [loadSubdirectory] stored, each the stored file name, free of slashes and
    backslashes; for an entry whose path has no backslash it is the part of
    the path after its last slash. *)
Theorem dashboard_routes_are_file_names (data : list Entry) :
  Forall2 (fun d route =>
             route = Utils.getFileNameFromPath
                       (Utils.getFileNameFromPath (e_path d))
             /\ (47%N ∉ route) /\ (92%N ∉ route)
             /\ (includes [92%N] (e_path d) = false ->
                 route = Utils.getFileNameFromPath (e_path d)))
    data (getAvailableRoutes (Some (dashboardEntries data))).
Proof.
  unfold getAvailableRoutes, dashboardEntries.
  rewrite length_map, List.map_map. simpl.
  destruct data as [|d0 data0]; [constructor|].
  change (Nat.eqb (length (d0 :: data0)) 0) with false. cbv iota.
  induction (d0 :: data0) as [|d data IH]; simpl; constructor; [|exact IH].
  pose proof (getFileNameFromPath_no_backslash (e_path d)) as H92.
  assert (Hinc : includes [92%N] (Utils.getFileNameFromPath (e_path d)) = false).
  { destruct (includes [92%N] _) eqn:E; [|reflexivity].
    apply includes_unit in E. contradiction. }
  split; [reflexivity|]. split; [|split].
  - destruct (getFileNameFromPath_shape (Utils.getFileNameFromPath (e_path d)))
      as (dir & _ & Hf & _).
    rewrite Hinc in Hf. exact Hf.
  - apply getFileNameFromPath_no_backslash.
  - intros E. apply getFileNameFromPath_plain; [|exact H92].
    destruct (getFileNameFromPath_shape (e_path d)) as (dir & _ & Hf & _).
    rewrite E in Hf. exact Hf.
Qed.

End ChatPageFacts.

(** ** The chat log: filter, history, cleaning, thinking sections *)

Section ChatLogFacts.

Import ChatLog.

(** What is rendered is a subsequence of the transcript, and every rendered
    message either has pictures, or has content with a unit that is not
    blank, is no tool result and is not marked hidden. *)
Theorem displayed_messages_are_presentable (st : State) :
  sublist (displayed st) (messages st)
  /\ Forall (fun m =>
               has_pictures m = true
               \/ truthy (trim (content m)) = true
                  /\ message_type_is (lit "tool_result") m = false
                  /\ marked_hidden m = false)
       (displayed st).
Proof.
  unfold displayed. split.
  - induction (messages st) as [|m l IH]; simpl; [constructor|].
    destruct (shouldDisplayMessage m);
      [apply sublist_skip | apply sublist_cons]; exact IH.
  - apply List.Forall_forall. intros m Hin.
    apply filter_In in Hin as [_ Hd]. unfold shouldDisplayMessage in Hd.
    destruct (has_pictures m); [left; reflexivity|]. right.
    destruct (truthy (content m)); simpl in Hd; [|discriminate].
    destruct (truthy (trim (content m))); simpl in Hd; [|discriminate].
    destruct (message_type_is (lit "tool_result") m); [discriminate|].
    destruct (str_eqb (role m) (lit "system")
              && message_type_is (lit "system") m
              && (includes (lit "initialized") (content m)
                  || includes (lit "Agent") (content m))); [discriminate|].
    destruct (marked_hidden m); [discriminate|]. auto.
Qed.

Lemma absorb_known (ms prev : list ChatMessage) :
  Forall (fun m => id m ∈ ids prev) ms -> absorb ms prev = prev.
Proof.
  induction 1 as [|m ms Hm _ IH]; [reflexivity|].
  change (absorb (m :: ms) prev) with (absorb ms (appendIfNew m prev)).
  rewrite appendIfNew_known by assumption. exact IH.
Qed.

(** After the history has been loaded, frames that repeat messages of the
    history (as a reconnecting socket may deliver them) leave the
    transcript equal to the history.  Loading the history replaces the
    transcript, whatever frames had arrived before; a failed load keeps
    it.  Loading always ends the loading state. *)
Theorem history_absorbs_replayed_frames (history : list ChatMessage)
  (ds earlier : list (Stamp * WsMessage)) (st : State) :
  Forall (fun m => id m ∈ ids history) (incoming ds) ->
  messages (deliver ds (loadChatHistory (Some history) st)) = history
  /\ messages (loadChatHistory (Some history) (deliver earlier st)) = history
  /\ messages (loadChatHistory None (deliver earlier st))
     = messages (deliver earlier st)
  /\ (forall answer, isLoading (loadChatHistory answer st) = false).
Proof.
  intros H. split; [|split; [|split]].
  - rewrite messages_deliver. simpl. apply absorb_known, H.
  - reflexivity.
  - reflexivity.
  - intros [h|]; reflexivity.
Qed.

Lemma history_absorbs_replayed_frames_witness :
  messages
    (deliver [frame "m1" "user" "hello"]
       (loadChatHistory
          (Some (incoming [frame "m1" "user" "hello";
                           frame "m2" "assistant" "hi"]))
          fresh_viewer))
  = incoming [frame "m1" "user" "hello"; frame "m2" "assistant" "hi"].
Proof.
  destruct (history_absorbs_replayed_frames
              (incoming [frame "m1" "user" "hello"; frame "m2" "assistant" "hi"])
              [frame "m1" "user" "hello"] [] fresh_viewer) as [H _].
  - repeat constructor.
  - exact H.
Defined.

Lemma trimStart_skip_blanks (w r : jsstring) :
  Forall (fun c => is_ws c = true) w -> trimStart (w ++ r) = trimStart r.
Proof.
  induction 1 as [|c w Hc _ IH]; simpl; [reflexivity|]. rewrite Hc. exact IH.
Qed.

Lemma replace_to_end_nowhere (f : jsstring -> bool) (s : jsstring) :
  (forall a t, s = a ++ t -> f t = false) -> replace_to_end f s = s.
Proof.
  induction s as [|c s IH]; intros H.
  - simpl. rewrite (H [] []); reflexivity.
  - simpl. rewrite (H [] (c :: s)) by reflexivity. f_equal. apply IH.
    intros a t Hs. apply (H (c :: a) t). simpl. congruence.
Qed.

Lemma think_hard_needs_period (a t : jsstring) :
  think_hard_here t = true -> ends_in_period (a ++ t) = true.
Proof.
  intros H. apply think_hard_here_tail in H as (p & w & -> & Hw).
  unfold ends_in_period. rewrite !rev_app_distr, <- !app_assoc.
  rewrite trimStart_skip_blanks by (apply Forall_rev; exact Hw).
  reflexivity.
Qed.

Lemma chat_suffix_needs_period (a t : jsstring) :
  chat_suffix_here t = true -> ends_in_period (a ++ t) = true.
Proof.
  intros H. apply str_eqb_eq in H. subst t.
  unfold ends_in_period. rewrite rev_app_distr. reflexivity.
Qed.

(** A user message whose last unit that is not blank is not a full stop
    carries neither marker, and cleaning it only trims it. *)
Theorem clean_only_trims_without_period (content : jsstring) :
  ends_in_period content = false ->
  cleanUserMessage content = trim content.
Proof.
  intros H. unfold cleanUserMessage.
  destruct content as [|c content]; [reflexivity|]. simpl truthy. simpl negb.
  cbv iota.
  rewrite (replace_to_end_nowhere think_hard_here).
  - rewrite (replace_to_end_nowhere chat_suffix_here); [reflexivity|].
    intros a t Hs. destruct (chat_suffix_here t) eqn:E; [|reflexivity].
    rewrite Hs, (chat_suffix_needs_period a t E) in H. discriminate.
  - intros a t Hs. destruct (think_hard_here t) eqn:E; [|reflexivity].
    rewrite Hs, (think_hard_needs_period a t E) in H. discriminate.
Qed.

Lemma clean_only_trims_without_period_witness :
  cleanUserMessage (lit "  plot think hard. please ")
  = lit "plot think hard. please".
Proof.
  rewrite (clean_only_trims_without_period (lit "  plot think hard. please "))
    by reflexivity.
  reflexivity.
Defined.

Lemma find_sub_split (p s a b : jsstring) :
  find_sub p s = Some (a, b) -> s = a ++ p ++ b.
Proof.
  revert a b. induction s as [|c s IH]; intros a b; simpl.
  - destruct (strip_prefix p []) eqn:E; [|discriminate].
    intros H. injection H as <- <-. apply strip_prefix_app in E. exact E.
  - destruct (strip_prefix p (c :: s)) eqn:E.
    + intros H. injection H as <- <-. apply strip_prefix_app in E. exact E.
    + destruct (find_sub p s) as [[a' b']|]; [|discriminate].
      intros H. injection H as <- <-. simpl. f_equal. apply IH. reflexivity.
Qed.

Lemma remaining_part_trimmed (rest : jsstring) :
  Forall (fun p => truthy (part_text p) = true
                   /\ trim (part_text p) = part_text p
                   /\ is_whole p = false) (remaining_part rest).
Proof.
  unfold remaining_part. destruct (truthy (trim rest)) eqn:E; constructor;
    [|constructor]. simpl. rewrite trim_idem. auto.
Qed.

Lemma thinkingParts_trimmed (fuel : nat) (rest : jsstring) :
  Forall (fun p => truthy (part_text p) = true
                   /\ trim (part_text p) = part_text p
                   /\ is_whole p = false) (thinkingParts fuel rest).
Proof.
  revert rest. induction fuel as [|fuel IH]; intros rest; simpl; [constructor|].
  destruct (find_sub open_tag rest) as [[before after_open]|];
    [|apply remaining_part_trimmed].
  destruct (find_sub close_tag after_open) as [[inner after]|];
    [|apply remaining_part_trimmed].
  apply Forall_app. split; [|apply Forall_app; split; [|apply IH]].
  - destruct (truthy (trim before)) eqn:E; constructor; [|constructor].
    simpl. rewrite trim_idem. auto.
  - destruct (truthy (trim inner)) eqn:E; constructor; [|constructor].
    simpl. rewrite trim_idem. auto.
Qed.

Lemma thinkingParts_fuel (n m : nat) (rest : jsstring) :
  (length rest < n)%nat -> (length rest < m)%nat ->
  thinkingParts n rest = thinkingParts m rest.
Proof.
  revert m rest. induction n as [|n IH]; intros m rest Hn Hm; [lia|].
  destruct m as [|m]; [lia|]. simpl.
  destruct (find_sub open_tag rest) as [[before after_open]|] eqn:E1;
    [|reflexivity].
  destruct (find_sub close_tag after_open) as [[inner after]|] eqn:E2;
    [|reflexivity].
  apply find_sub_split in E1, E2. subst after_open rest.
  rewrite !length_app in Hn, Hm.
  assert (Ho : length open_tag = 10%nat) by reflexivity.
  do 2 f_equal. apply IH; lia.
Qed.

(** Rendering with thinking sections: every block except the whole-content
    fallback holds trimmed text with a unit that is not blank; content
    without an opening tag is rendered as one block of its trimmed text, and
    the fallback that shows the content as it is is taken only for content
    that is blank; more fuel than the length of the content never changes
    the result. *)
Theorem thinking_blocks_are_trimmed (content : jsstring) :
  Forall (fun p => is_whole p = true
                   \/ truthy (part_text p) = true
                      /\ trim (part_text p) = part_text p)
    (renderContentWithThinking content)
  /\ (find_sub open_tag content = None ->
      renderContentWithThinking content
      = if truthy (trim content) then [MarkdownRest (trim content)]
        else [MarkdownWhole content])
  /\ (renderContentWithThinking content = [MarkdownWhole content] ->
      find_sub open_tag content = None -> trim content = [])
  /\ (forall fuel, (length content < fuel)%nat ->
        thinkingParts fuel content
        = thinkingParts (S (length content)) content).
Proof.
  unfold renderContentWithThinking. split; [|split; [|split]].
  - pose proof (thinkingParts_trimmed (S (length content)) content) as H.
    destruct (thinkingParts (S (length content)) content) as [|p ps].
    + constructor; [left; reflexivity | constructor].
    + eapply Forall_impl; [exact H|]. simpl. intros q (H1 & H2 & _). auto.
  - intros E. simpl. rewrite E. unfold remaining_part.
    destruct (truthy (trim content)); reflexivity.
  - intros Hw E. simpl in Hw. rewrite E in Hw. unfold remaining_part in Hw.
    destruct (truthy (trim content)) eqn:Ht; [discriminate|].
    apply truthy_false_nil, Ht.
  - intros fuel Hf. apply thinkingParts_fuel; lia.
Qed.

Example thinking_example :
  renderContentWithThinking
    (lit "Plan: <thinking> check the data </thinking> Done.<thinking></thinking>")
  = [MarkdownBefore (lit "Plan:"); Thinking (lit "check the data");
     MarkdownBefore (lit "Done.")].
Proof. vm_compute. reflexivity. Qed.

End ChatLogFacts.

(** ** The polling hook: its timers *)

Section HookFacts.

Import UserRequests.

(** From mount on, whatever the order of visibility changes, effect runs,
    cleanups and timer firings, the hook never has two interval timers
    running: either none runs, or exactly the one held in [intervalRef],
    with a period of 500 or 5000 ms. *)
Theorem hook_keeps_one_timer (evs : list HookEvent) :
  let s := hook_run evs mounted in
  (length (snd s) <= 1)%nat
  /\ (snd s = []
      \/ exists p, snd s = [p] /\ intervalRef (fst s) = Some p
                   /\ (p = 500 \/ p = 5000)).
Proof.
  intros s. subst s.
  assert (H : one_timer (hook_run evs mounted)).
  { unfold hook_run. generalize mounted (or_introl eq_refl : one_timer mounted).
    induction evs as [|ev evs IH]; intros s Hs; simpl; [exact Hs|].
    apply IH, hook_step_one_timer, Hs. }
  split; [|exact H].
  destruct H as [-> | (p & -> & _)]; simpl; lia.
Qed.

(** When the status answered by the server differs from the one the period
    was chosen for, the next run of the effect (which the state change
    causes) clears the old timer and installs the period of the new
    status. *)
Theorem polling_follows_reported_status
  (data : ActiveRequestsResponse) (answer2 : Fetched ActiveRequestsResponse)
  (st : State) :
  isTabVisible st = true ->
  let st1 := fst (pollingEffect (Response true data) st) in
  hasActiveRequests st1 = r_hasActiveRequests data
  /\ activeCount st1 = r_activeCount data
  /\ intervalRef st1 = Some (pollInterval (hasActiveRequests st))
  /\ intervalRef (fst (pollingEffect answer2 st1))
     = Some (pollInterval (r_hasActiveRequests data))
  /\ snd (pollingEffect answer2 st1)
     = [ClearInterval (pollInterval (hasActiveRequests st)); HttpGetActive;
        SetInterval (pollInterval (r_hasActiveRequests data))].
Proof.
  intros Hv st1. subst st1. unfold pollingEffect, checkActiveRequests.
  rewrite Hv. simpl. rewrite ?Hv. simpl.
  destruct answer2 as [|[] d]; repeat split.
Qed.

Lemma polling_follows_reported_status_witness :
  intervalRef
    (fst (pollingEffect idle_answer
            (fst (pollingEffect
                    (Response true {| r_hasActiveRequests := true;
                                      r_activeCount := 1 |})
                    idle_visible))))
  = Some 500.
Proof.
  destruct (polling_follows_reported_status
              {| r_hasActiveRequests := true; r_activeCount := 1 |}
              idle_answer idle_visible eq_refl) as (_ & _ & _ & H & _).
  exact H.
Defined.

End HookFacts.

(** ** Loading the settings *)

Section SettingsFacts.

Import ChatPage.


End SettingsFacts.

(** ** Waiting state and data URLs *)

Section MoreChatFacts.

Import ChatLog.





End MoreChatFacts.

Section DataUrlFacts.

Import ChatPage.

Lemma split_free (sep : N) (s : jsstring) : sep ∉ s -> split sep s = [s].
Proof.
  induction s as [|c s IH]; intros H; simpl; [reflexivity|].
  destruct (N.eqb_spec c sep) as [->|Hne].
  - exfalso. apply H. left.
  - rewrite IH; [reflexivity|]. intros Hin. apply H. right. exact Hin.
Qed.

Lemma split_at_first (sep : N) (a b : jsstring) :
  sep ∉ a -> split sep (a ++ sep :: b) = a :: split sep b.
Proof.
  induction a as [|c a IH]; intros H; simpl.
  - rewrite N.eqb_refl. reflexivity.
  - destruct (N.eqb_spec c sep) as [->|Hne].
    + exfalso. apply H. left.
    + rewrite IH; [reflexivity|]. intros Hin. apply H. right. exact Hin.
Qed.

(** An image held by the page as a data URL is sent with exactly the payload
    and the media type of that URL, and under its own name. *)
Theorem processImage_decodes_data_url (name url mime payload : jsstring) :
  44 ∉ mime -> 58 ∉ mime -> 59 ∉ mime -> 44 ∉ payload ->
  processImage (local_as_any {| li_name := name; li_url := url;
                                li_base64 := data_url mime payload |})
  = Base64Image (Some name) (Some payload) (Some mime).
Proof.
  intros Hc Hcol Hsemi Hp. unfold processImage, local_as_any, data_url.
  cbn [img_path img_base64 img_name truthy_opt default].
  change (truthy (lit "data:" ++ mime ++ lit ";base64," ++ payload)) with true.
  cbv iota. unfold id. cbn [li_base64 li_name li_url]. f_equal.
  - replace (lit "data:" ++ mime ++ lit ";base64," ++ payload)
      with ((lit "data:" ++ mime ++ lit ";base64") ++ 44 :: payload)
      by (rewrite <- !app_assoc; reflexivity).
    rewrite split_at_first, (split_free 44 payload Hp); [reflexivity|].
    intros Hin. apply elem_of_app in Hin as [Hin|Hin];
      [vm_compute in Hin; repeat (apply elem_of_cons in Hin as [Hin|Hin];
                                   [discriminate|]); inversion Hin|].
    apply elem_of_app in Hin as [Hin|Hin]; [contradiction|].
    vm_compute in Hin.
    repeat (apply elem_of_cons in Hin as [Hin|Hin]; [discriminate|]).
    inversion Hin.
  - replace (lit "data:" ++ mime ++ lit ";base64," ++ payload)
      with ((lit "data:" ++ mime) ++ 59 :: lit "base64," ++ payload)
      by (rewrite <- !app_assoc; reflexivity).
    rewrite split_at_first.
    + cbn [head default].
      replace (lit "data:" ++ mime) with (lit "data" ++ 58 :: mime)
        by reflexivity.
      rewrite split_at_first, (split_free 58 mime Hcol); [reflexivity|].
      intros Hin. vm_compute in Hin.
      repeat (apply elem_of_cons in Hin as [Hin|Hin]; [discriminate|]).
      inversion Hin.
    + intros Hin. apply elem_of_app in Hin as [Hin|Hin]; [|contradiction].
      vm_compute in Hin.
      repeat (apply elem_of_cons in Hin as [Hin|Hin]; [discriminate|]).
      inversion Hin.
Qed.

Lemma processImage_decodes_data_url_witness :
  processImage (local_as_any {| li_name := lit "a.png"; li_url := lit "blob:1";
                                li_base64 := data_url (lit "image/png")
                                               (lit "iVBOR") |})
  = Base64Image (Some (lit "a.png")) (Some (lit "iVBOR"))
      (Some (lit "image/png")).
Proof.
  apply (processImage_decodes_data_url (lit "a.png") (lit "blob:1")
           (lit "image/png") (lit "iVBOR"));
    intros H; vm_compute in H;
    repeat (apply elem_of_cons in H as [H|H]; [discriminate|]);
    inversion H.
Defined.

End DataUrlFacts.
